(** * specific_grep: a shallow embedding of [specific_grep.cpp]

    The program walks a directory tree, splits the list of regular files
    into contiguous slices, scans every slice on a thread of its own for
    the lines that contain a literal search string and concatenates what
    the threads return.

    Layout of the development:
    - [MachineInt]   the C++ integer types the code computes with;
    - [Text]         [std::string::find] and [std::getline];
    - [Runtime]      what the standard library and the operating system
                     answer: the file system, thread identities, the I/O
                     alphabet and the ways a C++ call can end;
    - [Scanner]      [searchFilesForString];
    - [Coordinator]  [searchDirectoryForString];
    - [Driver]       [isValidFilename] and [main];
    - [Spec]         the notions the properties are stated with;
    - [Example]      a small directory tree to run the definitions on;
    - [Notions]      further notions on text, file handles and options;
    - [LongFile]     a file with more lines than an [int] counts;
    - the theorems, one block per property of the specification. *)

From Stdlib Require Import ZArith List Lia Bool Ascii String.
From Stdlib Require DecimalString DecimalPos DecimalZ.
Import ListNotations.

Local Open Scope string_scope.
Local Open Scope list_scope.
Local Open Scope Z_scope.

(* ===================================================================== *)
(** ** Machine integers *)
(* ===================================================================== *)

Module MachineInt.

(** [int] is a 32-bit two's complement integer. *)
Definition INT_MAX : Z := 2 ^ 31 - 1.
Definition INT_MIN : Z := - 2 ^ 31.

(** Value of an [int] expression whose mathematical value is [z]:
    conversions to [int] are modular, and so is, on every target the
    program is built for, arithmetic that leaves the range. *)
Definition wrap_int (z : Z) : Z := (z + 2 ^ 31) mod 2 ^ 32 - 2 ^ 31.

(** [std::size_t] is a 64-bit unsigned integer; converting an [int]
    operand to it (usual arithmetic conversions) is reduction modulo
    [2^64]. *)
Definition SIZE_MAX : Z := 2 ^ 64 - 1.
Definition to_size_t (z : Z) : Z := z mod 2 ^ 64.

Definition in_int (z : Z) : Prop := INT_MIN <= z <= INT_MAX.

End MachineInt.
Import MachineInt.

(* ===================================================================== *)
(** ** Text: [std::string::find] and [std::getline] *)
(* ===================================================================== *)

Module Text.

(** The line terminator ['\n']. *)
Definition newline : ascii := "010"%char.

(** [line.find(pat)] with the default start position: the lowest index
    at which [pat] occurs in [line]; [None] stands for
    [std::string::npos]. *)
Fixpoint find_from (pos : nat) (line pat : string) : option nat :=
  if prefix pat line then Some pos
  else match line with
       | EmptyString => None
       | String _ rest => find_from (S pos) rest pat
       end.

Definition find (line pat : string) : option nat := find_from 0 line pat.

(** [line.find(pat) != std::string::npos]. *)
Definition found (line pat : string) : bool :=
  match find line pat with Some _ => true | None => false end.

(** [std::getline(file, line)] on a stream whose unread characters are
    [input]: characters are extracted up to the first ['\n'], which is
    consumed and not stored, or up to the end of the input.  The call
    fails ([None]) exactly when no character at all could be extracted.
    On success the line and the characters left unread are returned. *)
Fixpoint getline (input : string) : option (string * string) :=
  match input with
  | EmptyString => None
  | String c rest =>
      if Ascii.eqb c newline then Some (EmptyString, rest)
      else match getline rest with
           | Some (line, rest') => Some (String c line, rest')
           | None => Some (String c EmptyString, EmptyString)
           end
  end.

(** The lines of a file as a reader sees them: the segments between
    terminators, a last segment without terminator included when it is
    not empty. *)
Fixpoint file_lines_aux (cur : string) (input : string) : list string :=
  match input with
  | EmptyString =>
      match cur with EmptyString => [] | _ => [cur] end
  | String c rest =>
      if Ascii.eqb c newline then cur :: file_lines_aux EmptyString rest
      else file_lines_aux (cur ++ String c EmptyString)%string rest
  end.

Definition file_lines (input : string) : list string :=
  file_lines_aux EmptyString input.

(** [S] occurs in [line] as a contiguous run of characters. *)
Definition substring_of (S line : string) : Prop :=
  exists pre post, line = (pre ++ S ++ post)%string.

End Text.
Import Text.

(* ===================================================================== *)
(** ** Runtime: file system, threads, I/O alphabet, outcomes *)
(* ===================================================================== *)

Module Runtime.

(** [std::thread::id] is opaque; equality is all the program could use. *)
Definition thread_id := nat.

Inductive file_type := RegularFile | Directory | OtherFile.

(** What the environment answers during one run.  The file system is
    not modified while the program runs. *)
Record Env := {
  (** [fs::status(p)]: [None] when nothing exists at [p]. *)
  fs_status : string -> option file_type;
  (** the paths a [fs::recursive_directory_iterator] started at a
      directory yields, in traversal order; [None] when the traversal
      itself throws [fs::filesystem_error]. *)
  fs_walk : string -> option (list string);
  (** [std::ifstream file(p)]: the characters the stream delivers, or
      [None] when the stream is not [good()] after opening. *)
  fs_open : string -> option string;
  (** [fs::current_path().string()]. *)
  fs_cwd : string;
  (** [fs::path(p).filename().string()], in the path syntax of the
      platform. *)
  path_filename : string -> string;
  (** identity of the thread [std::async(std::launch::async, ...)]
      starts for the task launched in iteration [i]. *)
  async_thread : Z -> thread_id;
  (** where [fs_status] is [None]: whether [fs::status(p)] failed with an
      error other than "nothing there" (a name that is too long, a
      directory that cannot be searched), which the throwing overloads
      of [<filesystem>] report as [fs::filesystem_error]. *)
  fs_status_error : string -> bool;
  (** whether the system can start a thread for the task launched in
      iteration [i]; [std::async] throws [std::system_error] when it
      cannot. *)
  async_starts : Z -> bool
}.

(** The I/O operations of [<iostream>], [<fstream>] and [<filesystem>]
    a run can perform. *)
Inductive io_event :=
| IfstreamOpen (p : string) (ok : bool)  (* std::ifstream file(p)     *)
| IfstreamClose (p : string)             (* file.close()              *)
| Cerr (msg : string)                    (* std::cerr << ...          *)
| Cout (msg : string)                    (* std::cout << ...          *)
| OfstreamWrite (p : string) (data : string) (* std::ofstream: create/write *)
| DirectoryWalk (root : string)          (* recursive_directory_iterator *)
| FsExists (p : string)                  (* fs::exists(p)             *)
| FsCurrentPath.                         (* fs::current_path()        *)

Inductive exception :=
| filesystem_error
| invalid_argument
| out_of_range
| system_error.

Inductive undefined :=
| DivisionByZero
| IteratorOutOfRange
| NullArgv.

(** How a call ends. *)
Inductive outcome (A : Type) :=
| Returned (a : A)
| Threw (e : exception)
| Undefined (u : undefined).
Arguments Returned {A} a.
Arguments Threw {A} e.
Arguments Undefined {A} u.

End Runtime.
Import Runtime.

(* ===================================================================== *)
(** ** The line scanner: [searchFilesForString] *)
(* ===================================================================== *)

Module Scanner.

(** [std::tuple<std::thread::id, std::string, int, std::string>] *)
Definition result_tuple : Type := thread_id * string * Z * string.

Definition tuple_thread (r : result_tuple) : thread_id :=
  let '(t, _, _, _) := r in t.
Definition tuple_path (r : result_tuple) : string :=
  let '(_, p, _, _) := r in p.
Definition tuple_line_number (r : result_tuple) : Z :=
  let '(_, _, n, _) := r in n.
Definition tuple_line (r : result_tuple) : string :=
  let '(_, _, _, l) := r in l.

Definition open_error_message (file_path : string) : string :=
  ("Error: could not open file " ++ file_path
     ++ " due to permission issues." ++ String newline EmptyString)%string.

Section Worker.
Variable env : Env.
Variable thread_id : Runtime.thread_id.   (* std::this_thread::get_id() *)
Variable search_string : string.

(** The [while (std::getline(file, line))] loop.  Every successful
    [getline] consumes at least one character, so [fuel] bounded by
    the number of unread characters never cuts the loop short. *)
Fixpoint scan_lines (fuel : nat) (file_path : string) (input : string)
    (line_number : Z) (results : list result_tuple)
    : list result_tuple :=
  match fuel with
  | O => results
  | S fuel' =>
      match getline input with
      | None => results
      | Some (line, rest) =>
          let line_number := wrap_int (line_number + 1) in
          let results :=
            if found line search_string
            then results ++ [(thread_id, file_path, line_number, line)]
            else results in
          scan_lines fuel' file_path rest line_number results
      end
  end.

(** One iteration of the [for] loop over [files_to_search]. *)
Definition scan_file (file_path : string)
    (st : list result_tuple * list io_event)
    : list result_tuple * list io_event :=
  let '(results, trace) := st in
  match fs_open env file_path with
  | Some content =>
      (scan_lines (String.length content) file_path content 0 results,
       trace ++ [IfstreamOpen file_path true; IfstreamClose file_path])
  | None =>
      (results,
       trace ++ [IfstreamOpen file_path false;
                 Cerr (open_error_message file_path)])
  end.

Fixpoint scan_files (files_to_search : list string)
    (st : list result_tuple * list io_event)
    : list result_tuple * list io_event :=
  match files_to_search with
  | [] => st
  | file_path :: files => scan_files files (scan_file file_path st)
  end.

(** The entry added when [results] is empty: the thread identity, an
    empty path, [NULL] (the [int] 0) and an empty line. *)
Definition placeholder : result_tuple :=
  (thread_id, EmptyString, 0, EmptyString).

Definition searchFilesForString (files_to_search : list string)
    : list result_tuple * list io_event :=
  let '(results, trace) := scan_files files_to_search ([], []) in
  match results with
  | [] => ([placeholder], trace)
  | _ => (results, trace)
  end.

End Worker.

End Scanner.
Import Scanner.

(* ===================================================================== *)
(** ** The scan coordinator: [searchDirectoryForString] *)
(* ===================================================================== *)

Module Coordinator.

(** What one call did to the outside world: the operations of the calling
    thread in program order, and for every launched task the operations
    of its thread.  The tasks run concurrently, so no order is recorded
    between the operations of different threads. *)
Record effects := {
  caller_thread : list io_event;
  worker_threads : list (list io_event)
}.

(** [fs::is_regular_file(file)]: the status of the entry is asked for,
    which throws when it cannot be obtained. *)
Definition is_regular_file (env : Env) (p : string) : outcome bool :=
  match fs_status env p with
  | Some RegularFile => Returned true
  | Some _ => Returned false
  | None =>
      if fs_status_error env p then Threw filesystem_error
      else Returned false
  end.

(** The body of the first loop on the entries the iterator yields:
    [files_to_search.push_back(file.path())] for the regular files. *)
Fixpoint push_regular_files (env : Env) (entries : list string)
    (files_to_search : list string) : outcome (list string) :=
  match entries with
  | [] => Returned files_to_search
  | file :: rest =>
      match is_regular_file env file with
      | Returned true =>
          push_regular_files env rest (files_to_search ++ [file])
      | Returned false => push_regular_files env rest files_to_search
      | Threw e => Threw e
      | Undefined u => Undefined u
      end
  end.

(** The first loop: the regular files below [directory_path], in the order
    the iterator yields them.  Constructing the iterator on a path that is
    not an existing directory throws. *)
Definition enumerate_files (env : Env) (directory_path : string)
    : outcome (list string) :=
  match fs_status env directory_path with
  | Some Directory =>
      match fs_walk env directory_path with
      | Some entries => push_regular_files env entries []
      | None => Threw filesystem_error
      end
  | _ => Threw filesystem_error
  end.

(** [std::vector<fs::path>(v.begin() + start_index, v.begin() + end_index)];
    the range has to lie inside the vector. *)
Definition subvector (v : list string) (start_index end_index : Z)
    : option (list string) :=
  if (0 <=? start_index) && (start_index <=? end_index)
     && (end_index <=? Z.of_nat (List.length v))
  then Some (firstn (Z.to_nat (end_index - start_index))
                    (skipn (Z.to_nat start_index) v))
  else None.

(** What a [std::future] delivers once its task has finished. *)
Definition future : Type := list result_tuple * list io_event.

Section Launch.
Variable env : Env.
Variable search_string : string.
Variable files_to_search : list string.
Variable thread_count : Z.
Variable files_per_thread : Z.

(** [files_to_search.size()] *)
Definition size : Z := Z.of_nat (List.length files_to_search).

Definition start_index (i : Z) : Z := wrap_int (i * files_per_thread).

(** The conditional has type [std::size_t]; its value is then stored in
    an [int]. *)
Definition end_index (i : Z) : Z :=
  wrap_int (if wrap_int (i + 1) =? thread_count
            then size
            else to_size_t (wrap_int (wrap_int (i + 1) * files_per_thread))).

(** The loop [for (int i = 0; i < thread_count; ++i)]; it runs at most
    [thread_count] times, which is what [fuel] is set to.  The loop gives
    the futures of the tasks it started and how it ended: [std::async]
    throws when no thread can be started for a task, and the tasks
    started before keep running. *)
Fixpoint launch (fuel : nat) (i : Z) (futures : list future)
    : list future * outcome unit :=
  match fuel with
  | O => (futures, Returned tt)
  | S fuel' =>
      if i <? thread_count then
        match subvector files_to_search (start_index i) (end_index i) with
        | None => (futures, Undefined IteratorOutOfRange)
        | Some files_subset =>
            if async_starts env i then
              let result :=
                searchFilesForString env (async_thread env i)
                                     search_string files_subset in
              launch fuel' (wrap_int (i + 1)) (futures ++ [result])
            else (futures, Threw system_error)
        end
      else (futures, Returned tt)
  end.

End Launch.

(** The loop over [futures]: [future.get()] and
    [results.insert(results.end(), ...)]. *)
Definition collect (futures : list future) : list result_tuple :=
  fold_left (fun results f => results ++ fst f) futures [].

Definition searchDirectoryForString (env : Env) (search_string : string)
    (directory_path : string) (thread_count : Z)
    : outcome (list result_tuple * Z) * effects :=
  let walked := [DirectoryWalk directory_path] in
  match enumerate_files env directory_path with
  | Threw e => (Threw e, {| caller_thread := walked; worker_threads := [] |})
  | Undefined u =>
      (Undefined u, {| caller_thread := walked; worker_threads := [] |})
  | Returned files_to_search =>
      if to_size_t thread_count =? 0 then
        (Undefined DivisionByZero,
         {| caller_thread := walked; worker_threads := [] |})
      else
        let files_per_thread :=
          wrap_int (size files_to_search / to_size_t thread_count) in
        let '(futures, ending) :=
          launch env search_string files_to_search thread_count
                 files_per_thread (Z.to_nat thread_count) 0 [] in
        let eff := {| caller_thread := walked;
                      worker_threads := map snd futures |} in
        match ending with
        | Returned _ =>
            (Returned (collect futures, wrap_int (size files_to_search)),
             eff)
        | Threw e => (Threw e, eff)
        | Undefined u => (Undefined u, eff)
        end
  end.

End Coordinator.
Import Coordinator.

(* ===================================================================== *)
(** ** The command-line driver: [isValidFilename] and [main] *)
(* ===================================================================== *)

Module Driver.

Definition char_in (c : ascii) (lo hi : ascii) : bool :=
  (nat_of_ascii lo <=? nat_of_ascii c)%nat
  && (nat_of_ascii c <=? nat_of_ascii hi)%nat.

Definition is_digit (c : ascii) : bool := char_in c "0" "9".

(** The class [w] of the regular expression: letters, digits and the
    underscore. *)
Definition is_word_char (c : ascii) : bool :=
  char_in c "a" "z" || char_in c "A" "Z" || is_digit c || Ascii.eqb c "_".

(** A character the negated class of the pattern does not match: a word
    character, a hyphen, a dot or a space. *)
Definition allowed_in_filename (c : ascii) : bool :=
  is_word_char c || Ascii.eqb c "-" || Ascii.eqb c "." || Ascii.eqb c " ".

Fixpoint all_chars (f : ascii -> bool) (s : string) : bool :=
  match s with
  | EmptyString => true
  | String c rest => f c && all_chars f rest
  end.

(** [!std::regex_search(filename, pattern)] *)
Definition isValidFilename (filename : string) : bool :=
  all_chars allowed_in_filename filename.

(** [std::isspace] in the "C" locale. *)
Definition isspace (c : ascii) : bool :=
  Ascii.eqb c " " || char_in c "009" "013".

Fixpoint skip_spaces (s : string) : string :=
  match s with
  | String c rest => if isspace c then skip_spaces rest else s
  | EmptyString => s
  end.

(** The longest run of decimal digits at the head of [s]: its value when
    [acc] is the value read so far, and whether a digit was seen. *)
Fixpoint read_digits (s : string) (acc : Z) (seen : bool) : Z * bool :=
  match s with
  | String c rest =>
      if is_digit c
      then read_digits rest (10 * acc + (Z.of_nat (nat_of_ascii c) - 48)) true
      else (acc, seen)
  | EmptyString => (acc, seen)
  end.

(** [std::stoi(str)]: white space, an optional sign, decimal digits;
    whatever follows the digits is ignored.  Throws
    [std::invalid_argument] when there is no digit to convert and
    [std::out_of_range] when the value is not an [int]. *)
Definition stoi (str : string) : outcome Z :=
  let s := skip_spaces str in
  let '(negative, s) :=
    match s with
    | String "-" rest => (true, rest)
    | String "+" rest => (false, rest)
    | _ => (false, s)
    end in
  match read_digits s 0 false with
  | (_, false) => Threw invalid_argument
  | (v, true) =>
      let v := if negative then - v else v in
      if (INT_MIN <=? v) && (v <=? INT_MAX) then Returned v
      else Threw out_of_range
  end.

(** [filename.find_last_of(".")]: index of the last dot, [None] for
    [npos]. *)
Fixpoint find_last_of_dot (s : string) : option nat :=
  match s with
  | EmptyString => None
  | String c rest =>
      match find_last_of_dot rest with
      | Some n => Some (S n)
      | None => if Ascii.eqb c "." then Some O else None
      end
  end.

(** [filename.substr(0, last_dot)] *)
Definition program_name_of (filename : string) : string :=
  match find_last_of_dot filename with
  | Some last_dot => substring 0 last_dot filename
  | None => filename
  end.

Definition endl : string := String newline EmptyString.

(** The separator the driver puts between the current directory and the
    argument of [-d]. *)
Definition backslash : string := String (ascii_of_nat 92) EmptyString.

Definition usage (filename : string) : string :=
  ("Error: wrong usage of the program" ++ endl
   ++ "Usage: " ++ filename ++ " <search string> [options]" ++ endl
   ++ "Options:" ++ endl
   ++ "  -d <directory> - directory to search in (default: current directory)" ++ endl
   ++ "  -l <log filename> - log filename (default: <program name>.log)" ++ endl
   ++ "  -r <result filename> - result filename (default: <program name>.txt)" ++ endl
   ++ "  -t <thread count> - number of threads to use (default: 4)" ++ endl)%string.

(** The local variables of [main] the option loop updates. *)
Record locals := {
  directory_path : string;
  log_filename : string;
  result_filename : string;
  thread_cnt : Z;
  dir_opt : bool;
  log_filename_opt : bool;
  result_filename_opt : bool;
  thread_cnt_opt : bool
}.

(** How the process ends. *)
Inductive status :=
| Exit (code : Z)                    (* return from main                 *)
| Terminate (e : exception)          (* exception nobody catches         *)
| Undef (u : undefined).

Inductive step :=
| Continue (vars : locals) (trace : list io_event)
| Stop (s : status) (trace : list io_event).

Definition fail (trace : list io_event) (msg : string) : step :=
  Stop (Exit 1) (trace ++ [Cerr (msg ++ endl)%string]).

(** [fs::exists(p)]: whether the status of [p] is that of an existing
    file; throws when the status cannot be obtained. *)
Definition fs_exists (env : Env) (p : string) : outcome bool :=
  match fs_status env p with
  | Some _ => Returned true
  | None =>
      if fs_status_error env p then Threw filesystem_error
      else Returned false
  end.

(** The body of the option loop on the pair [argv[i * 2]],
    [argv[i * 2 + 1]]. *)
Definition handle_option (env : Env) (opt value : string) (vars : locals)
    (trace : list io_event) : step :=
  if String.eqb opt "-d" || String.eqb opt "--dir" then
    if dir_opt vars then
      fail trace "Error: multiple usage of the starting directory option"
    else
      let directory_path :=
        (directory_path vars ++ backslash ++ value)%string in
      let trace := trace ++ [FsExists directory_path] in
      match fs_exists env directory_path with
      | Returned false => fail trace "Error: directory does not exist"
      | Returned true =>
          Continue {| directory_path := directory_path;
                      log_filename := log_filename vars;
                      result_filename := result_filename vars;
                      thread_cnt := thread_cnt vars;
                      dir_opt := true;
                      log_filename_opt := log_filename_opt vars;
                      result_filename_opt := result_filename_opt vars;
                      thread_cnt_opt := thread_cnt_opt vars |} trace
      | Threw e => Stop (Terminate e) trace
      | Undefined u => Stop (Undef u) trace
      end
  else if String.eqb opt "-l" || String.eqb opt "--log_file" then
    if log_filename_opt vars then
      fail trace "Error: multiple usage of the log filename option"
    else if negb (isValidFilename value) then
      fail trace "Error: invalid log filename"
    else
      Continue {| directory_path := directory_path vars;
                  log_filename := value;
                  result_filename := result_filename vars;
                  thread_cnt := thread_cnt vars;
                  dir_opt := dir_opt vars;
                  log_filename_opt := true;
                  result_filename_opt := result_filename_opt vars;
                  thread_cnt_opt := thread_cnt_opt vars |} trace
  else if String.eqb opt "-r" || String.eqb opt "--result_file" then
    if result_filename_opt vars then
      fail trace "Error: multiple usage of the result filename option"
    else if negb (isValidFilename value) then
      fail trace "Error: invalid result filename"
    else
      Continue {| directory_path := directory_path vars;
                  log_filename := log_filename vars;
                  result_filename := value;
                  thread_cnt := thread_cnt vars;
                  dir_opt := dir_opt vars;
                  log_filename_opt := log_filename_opt vars;
                  result_filename_opt := true;
                  thread_cnt_opt := thread_cnt_opt vars |} trace
  else if String.eqb opt "-t" || String.eqb opt "--threads" then
    if thread_cnt_opt vars then
      fail trace "Error: multiple usage of the thread count option"
    else
      match stoi value with
      | Returned n =>
          Continue {| directory_path := directory_path vars;
                      log_filename := log_filename vars;
                      result_filename := result_filename vars;
                      thread_cnt := n;
                      dir_opt := dir_opt vars;
                      log_filename_opt := log_filename_opt vars;
                      result_filename_opt := result_filename_opt vars;
                      thread_cnt_opt := true |} trace
      | Threw invalid_argument => fail trace "Error: invalid thread count"
      | Threw e => Stop (Terminate e) trace
      | Undefined u => Stop (Undef u) trace
      end
  else fail trace "Wrong usage of the additional parameters.".

(** [argv[k]] *)
Definition arg (argv : list string) (k : Z) : string :=
  nth (Z.to_nat k) argv EmptyString.

(** The loop [for (int i = 1; i <= additional_options_cnt; i++)]. *)
Fixpoint option_loop (env : Env) (argv : list string)
    (additional_options_cnt : Z) (fuel : nat) (i : Z)
    (vars : locals) (trace : list io_event) : step :=
  match fuel with
  | O => Continue vars trace
  | S fuel' =>
      if i <=? additional_options_cnt then
        match handle_option env (arg argv (i * 2)) (arg argv (i * 2 + 1))
                            vars trace with
        | Continue vars' trace' =>
            option_loop env argv additional_options_cnt fuel' (i + 1)
                        vars' trace'
        | Stop s trace' => Stop s trace'
        end
      else Continue vars trace
  end.

Definition on_caller (trace : list io_event) : effects :=
  {| caller_thread := trace; worker_threads := [] |}.

Definition main (env : Env) (argv : list string) : status * effects :=
  match argv with
  | [] => (Undef NullArgv, on_caller [])
  | argv0 :: _ =>
      let argc := Z.of_nat (List.length argv) in
      let filename := path_filename env argv0 in
      if argc =? 1 then (Exit 1, on_caller [Cerr (usage filename)])
      else if negb (Z.rem argc 2 =? 0) || (argc >? 10) then
        (Exit 1,
         on_caller [Cerr ("Error: wrong number of arguments" ++ endl)%string])
      else
        let directory_path := fs_cwd env in
        let search_string := arg argv 1 in
        let additional_options_cnt := Z.quot (argc - 2) 2 in
        let program_name := program_name_of filename in
        let vars := {| directory_path := directory_path;
                       log_filename := program_name;
                       result_filename := program_name;
                       thread_cnt := 4;
                       dir_opt := false;
                       log_filename_opt := false;
                       result_filename_opt := false;
                       thread_cnt_opt := false |} in
        match option_loop env argv additional_options_cnt
                          (Z.to_nat additional_options_cnt) 1
                          vars [FsCurrentPath] with
        | Stop s trace => (s, on_caller trace)
        | Continue vars trace =>
            let '(results, eff) :=
              searchDirectoryForString env search_string
                (Driver.directory_path vars) (thread_cnt vars) in
            let eff := {| caller_thread := trace ++ caller_thread eff;
                          worker_threads := worker_threads eff |} in
            match results with
            | Returned _ => (Exit 0, eff)
            | Threw e => (Terminate e, eff)
            | Undefined u => (Undef u, eff)
            end
        end
  end.

End Driver.
Import Driver.

(* ===================================================================== *)
(** ** Specification-side definitions *)
(* ===================================================================== *)

Module Spec.

(** The records of the matching lines among [lines], the first of which
    is line [k] of the file at [p]; the line number is what an [int]
    counter holds after [k] increments. *)
Fixpoint file_matches (tid : thread_id) (S p : string) (k : nat)
    (lines : list string) : list result_tuple :=
  match lines with
  | [] => []
  | l :: rest =>
      (if found l S then [(tid, p, wrap_int (Z.of_nat k), l)] else [])
      ++ file_matches tid S p (Datatypes.S k) rest
  end.

(** What one file of a partition contributes: nothing when it cannot be
    opened. *)
Definition file_records (env : Env) (tid : thread_id) (S p : string)
    : list result_tuple :=
  match fs_open env p with
  | Some content => file_matches tid S p 1 (file_lines content)
  | None => []
  end.

(** The lines of a file paired with their 1-based positions, top to
    bottom. *)
Definition numbered_lines (first : nat) (lines : list string)
    : list (nat * string) :=
  combine (seq first (List.length lines)) lines.

(** The records of one file in line order: the numbered lines that contain
    [S], kept in their order. *)
Definition records_in_line_order (tid : thread_id) (S p : string)
    (lines : list string) : list result_tuple :=
  map (fun kl => (tid, p, wrap_int (Z.of_nat (fst kl)), snd kl))
      (filter (fun kl => found (snd kl) S) (numbered_lines 1 lines)).

Definition file_events (env : Env) (p : string) : list io_event :=
  match fs_open env p with
  | Some _ => [IfstreamOpen p true; IfstreamClose p]
  | None => [IfstreamOpen p false; Cerr (open_error_message p)]
  end.

(** [n] contiguous slices of [l]: [n - 1] slices of [q] elements, then a
    last one with everything that is left. *)
Fixpoint chunks {A : Type} (q n : nat) (l : list A) : list (list A) :=
  match n with
  | O => []
  | Datatypes.S O => [l]
  | Datatypes.S n' => firstn q l :: chunks q n' (skipn q l)
  end.

(** The per-worker results for the slices [slices], the first of which
    goes to worker [i]. *)
Fixpoint worker_results (env : Env) (S : string) (i : Z)
    (slices : list (list string)) : list future :=
  match slices with
  | [] => []
  | slice :: rest =>
      searchFilesForString env (async_thread env i) S slice
      :: worker_results env S (i + 1) rest
  end.

(** An operation that only reads a candidate file. *)
Definition opens_for_reading (e : io_event) : Prop :=
  (exists p ok, e = IfstreamOpen p ok) \/ (exists p, e = IfstreamClose p).

(** An operation of the line scanner: reading a candidate file, or the
    error line for a file that could not be opened. *)
Definition scanner_event (env : Env) (e : io_event) : Prop :=
  opens_for_reading e
  \/ (exists p, fs_open env p = None /\ e = Cerr (open_error_message p)).

(** An operation that creates or writes a file, or prints on standard
    output. *)
Definition persists (e : io_event) : bool :=
  match e with
  | OfstreamWrite _ _ | Cout _ => true
  | _ => false
  end.

(** A thread that neither writes a file nor prints on standard output. *)
Definition quiet (trace : list io_event) : Prop :=
  Forall (fun e => persists e = false) trace.

Definition no_persistence (eff : effects) : Prop :=
  quiet (caller_thread eff) /\ Forall quiet (worker_threads eff).

(** The options whose argument names an output file. *)
Definition names_output_file (opt : string) : bool :=
  String.eqb opt "-l" || String.eqb opt "--log_file"
  || String.eqb opt "-r" || String.eqb opt "--result_file".

(** Two command lines that differ at most in the (valid) file names given
    to [-l] and [-r]. *)
Definition same_up_to_output_names (argv argv' : list string) : Prop :=
  List.length argv = List.length argv'
  /\ forall k : nat,
       nth k argv EmptyString = nth k argv' EmptyString
       \/ (exists i : nat,
             (1 <= i)%nat /\ k = (2 * i + 1)%nat
             /\ names_output_file (nth (2 * i) argv EmptyString) = true
             /\ isValidFilename (nth k argv EmptyString) = true
             /\ isValidFilename (nth k argv' EmptyString) = true).

(** Two states of the option loop that agree on everything but the two
    output file names. *)
Definition same_search_inputs (v v' : locals) : Prop :=
  directory_path v = directory_path v'
  /\ thread_cnt v = thread_cnt v'
  /\ dir_opt v = dir_opt v'
  /\ log_filename_opt v = log_filename_opt v'
  /\ result_filename_opt v = result_filename_opt v'
  /\ thread_cnt_opt v = thread_cnt_opt v'.

Definition step_related (a b : step) : Prop :=
  match a, b with
  | Continue v t, Continue v' t' => same_search_inputs v v' /\ t = t'
  | Stop s t, Stop s' t' => s = s' /\ t = t'
  | _, _ => False
  end.

End Spec.
Import Spec.

(* ===================================================================== *)
(** ** A concrete file system *)
(* ===================================================================== *)

Module Example.

Definition a_txt : string :=
  ("foo" ++ String newline ("bar baz" ++ String newline EmptyString))%string.

Definition b_txt : string :=
  ("nothing" ++ String newline "foo again")%string.

(** A directory [root] with the files [a.txt] and [b.txt] of the
    end-to-end example, a file [locked.txt] that cannot be opened and a
    subdirectory. *)
Definition env : Env := {|
  fs_status := fun p =>
    if String.eqb p "root" then Some Directory
    else if String.eqb p "root/a.txt" then Some RegularFile
    else if String.eqb p "root/locked.txt" then Some RegularFile
    else if String.eqb p "root/b.txt" then Some RegularFile
    else if String.eqb p "root/sub" then Some Directory
    else None;
  fs_walk := fun p =>
    if String.eqb p "root"
    then Some ["root/a.txt"; "root/sub"; "root/locked.txt"; "root/b.txt"]
    else None;
  fs_open := fun p =>
    if String.eqb p "root/a.txt" then Some a_txt
    else if String.eqb p "root/b.txt" then Some b_txt
    else None;
  fs_cwd := "root";
  path_filename := fun p => p;
  async_thread := fun i => Z.to_nat (100 + i);
  fs_status_error := fun _ => false;
  async_starts := fun _ => true
|}.

(** The tree of the end-to-end example alone: [a.txt] and [b.txt]. *)
Definition two_files : Env := {|
  fs_status := fun p =>
    if String.eqb p "root" then Some Directory
    else if String.eqb p "root/a.txt" then Some RegularFile
    else if String.eqb p "root/b.txt" then Some RegularFile
    else None;
  fs_walk := fun p =>
    if String.eqb p "root" then Some ["root/a.txt"; "root/b.txt"] else None;
  fs_open := fun p =>
    if String.eqb p "root/a.txt" then Some a_txt
    else if String.eqb p "root/b.txt" then Some b_txt
    else None;
  fs_cwd := "root";
  path_filename := fun p => p;
  async_thread := fun i => Z.to_nat (100 + i);
  fs_status_error := fun _ => false;
  async_starts := fun _ => true
|}.

(** A current directory [top] below which [file] is a regular file and
    the status of [unsearchable] cannot be obtained. *)
Definition bad_roots : Env := {|
  fs_status := fun p =>
    if String.eqb p "top" then Some Directory
    else if String.eqb p ("top" ++ String (ascii_of_nat 92) "file")
    then Some RegularFile
    else None;
  fs_walk := fun p => if String.eqb p "top" then Some [] else None;
  fs_open := fun _ => None;
  fs_cwd := "top";
  path_filename := fun p => p;
  async_thread := fun i => Z.to_nat (100 + i);
  fs_status_error := fun p =>
    String.eqb p ("top" ++ String (ascii_of_nat 92) "unsearchable");
  async_starts := fun _ => true
|}.

End Example.

(* ===================================================================== *)
(** ** Further notions: text, file handles, options *)
(* ===================================================================== *)

Module Notions.

(** [pat] occurs in [line] at index [n]. *)
Definition occurs_at (pat line : string) (n : nat) : Prop :=
  exists pre post,
    line = (pre ++ pat ++ post)%string /\ String.length pre = n.

(** [s] holds no line terminator. *)
Fixpoint no_newline (s : string) : bool :=
  match s with
  | EmptyString => true
  | String c rest => negb (Ascii.eqb c newline) && no_newline rest
  end.

(** The text of a file made of [lines], each followed by its terminator. *)
Fixpoint terminated (lines : list string) : string :=
  match lines with
  | [] => EmptyString
  | l :: rest => (l ++ String newline (terminated rest))%string
  end.

(** The file a thread has open after [trace], starting with [open]:
    [None] inside [Some] when it has none.  The whole is [None] when the
    thread opens a second file while it holds one, or closes a file it
    does not hold. *)
Fixpoint handle_after (open : option string) (trace : list io_event)
    : option (option string) :=
  match trace with
  | [] => Some open
  | IfstreamOpen p true :: rest =>
      match open with
      | None => handle_after (Some p) rest
      | Some _ => None
      end
  | IfstreamClose p :: rest =>
      match open with
      | Some q => if String.eqb p q then handle_after None rest else None
      | None => None
      end
  | _ :: rest => handle_after open rest
  end.

(** The paths a thread tried to open, in order. *)
Definition opened_paths (trace : list io_event) : list string :=
  flat_map (fun e => match e with IfstreamOpen p _ => [p] | _ => [] end)
           trace.

(** What a thread wrote on [std::cerr], in order. *)
Definition error_lines (trace : list io_event) : list string :=
  flat_map (fun e => match e with Cerr msg => [msg] | _ => [] end) trace.

(** [std::ifstream file(p)] fails. *)
Definition unreadable (env : Env) (p : string) : bool :=
  match fs_open env p with Some _ => false | None => true end.

(** A record without the identity of the thread that produced it. *)
Definition untag (r : result_tuple) : string * Z * string :=
  (tuple_path r, tuple_line_number r, tuple_line r).

(** A record that is not a placeholder: its line number is not 0. *)
Definition is_match (r : result_tuple) : bool :=
  negb (tuple_line_number r =? 0).

(** What one thread reading the files one after the other finds: for
    every file that opens, its lines that contain [S] with their 1-based
    positions, top to bottom. *)
Definition sequential_matches (env : Env) (S : string)
    (files : list string) : list (string * Z * string) :=
  flat_map
    (fun p =>
       match fs_open env p with
       | Some content =>
           map (fun kl => (p, Z.of_nat (fst kl), snd kl))
               (filter (fun kl => found (snd kl) S)
                       (numbered_lines 1 (file_lines content)))
       | None => []
       end) files.

(** The decimal notation of an integer: a minus sign for a negative
    number, then its digits without leading zeros. *)
Definition decimal (z : Z) : string :=
  DecimalString.NilEmpty.string_of_int (Z.to_int z).

(** A text [std::stoi] stops at: empty, or starting with a character that
    is not a digit. *)
Definition stops_number (rest : string) : bool :=
  match rest with
  | EmptyString => true
  | String c _ => negb (is_digit c)
  end.

(** What [std::stoi] makes of a number written out in full. *)
Definition converted (z : Z) : outcome Z :=
  if (INT_MIN <=? z) && (z <=? INT_MAX) then Returned z
  else Threw out_of_range.

(** The four options of the command line. *)
Inductive option_kind :=
| DirOption | LogOption | ResultOption | ThreadsOption.

(** The option the chain of [strcmp] tests takes [opt] for, in either
    spelling; [None] when no test succeeds. *)
Definition kind_of (opt : string) : option option_kind :=
  if String.eqb opt "-d" || String.eqb opt "--dir" then Some DirOption
  else if String.eqb opt "-l" || String.eqb opt "--log_file"
  then Some LogOption
  else if String.eqb opt "-r" || String.eqb opt "--result_file"
  then Some ResultOption
  else if String.eqb opt "-t" || String.eqb opt "--threads"
  then Some ThreadsOption
  else None.

(** The flag of [main] that records that an option was given. *)
Definition given (k : option_kind) (vars : locals) : bool :=
  match k with
  | DirOption => dir_opt vars
  | LogOption => log_filename_opt vars
  | ResultOption => result_filename_opt vars
  | ThreadsOption => thread_cnt_opt vars
  end.

(** The test the argument of an option has to pass. *)
Definition accepted (env : Env) (k : option_kind) (value : string) : Prop :=
  match k with
  | DirOption =>
      fs_status env (fs_cwd env ++ backslash ++ value)%string <> None
  | LogOption | ResultOption => isValidFilename value = true
  | ThreadsOption => exists n, stoi value = Returned n
  end.

(** [s] holds no dot. *)
Definition no_dot (s : string) : bool :=
  all_chars (fun c => negb (Ascii.eqb c ".")) s.

(** How [main] ends once the options are read: the scan is run and its
    result dropped. *)
Definition scan_and_exit (env : Env) (S dir : string) (threads : Z)
    (trace : list io_event) : status * effects :=
  let '(results, eff) := searchDirectoryForString env S dir threads in
  (match results with
   | Returned _ => Exit 0
   | Threw e => Terminate e
   | Undefined u => Undef u
   end,
   {| caller_thread := trace ++ caller_thread eff;
      worker_threads := worker_threads eff |}).

(** Two command lines that differ at most in the spelling, short or
    long, of their options. *)
Definition same_up_to_spelling (argv argv' : list string) : Prop :=
  List.length argv = List.length argv'
  /\ forall k : nat,
       nth k argv EmptyString = nth k argv' EmptyString
       \/ (exists i : nat,
             (1 <= i)%nat /\ k = (2 * i)%nat
             /\ kind_of (nth k argv EmptyString)
                = kind_of (nth k argv' EmptyString)).

End Notions.
Import Notions.

(* ===================================================================== *)
(** ** A file with more lines than an [int] counts *)
(* ===================================================================== *)

Module LongFile.

(** A file of [n] lines, every line ["a"] followed by its terminator. *)
Definition content_of (n : nat) : string := terminated (repeat "a" n).

(** A directory [big] that holds this file alone. *)
Definition env_of (n : nat) : Env := {|
  fs_status := fun p =>
    if String.eqb p "big" then Some Directory
    else if String.eqb p "big/lines.txt" then Some RegularFile
    else None;
  fs_walk := fun p =>
    if String.eqb p "big" then Some ["big/lines.txt"] else None;
  fs_open := fun p =>
    if String.eqb p "big/lines.txt" then Some (content_of n) else None;
  fs_cwd := "big";
  path_filename := fun p => p;
  async_thread := fun i => Z.to_nat (100 + i);
  fs_status_error := fun _ => false;
  async_starts := fun _ => true
|}.

(** [2^31] lines, one more than [INT_MAX]. *)
Definition line_count : nat := Z.to_nat 2147483648.

Definition content : string := content_of line_count.

Definition env : Env := env_of line_count.

End LongFile.

(* ===================================================================== *)
(** ** Facts about machine integers *)
(* ===================================================================== *)

Lemma wrap_int_small (z : Z) : in_int z -> wrap_int z = z.
Proof.
  unfold in_int, INT_MIN, INT_MAX, wrap_int. intros H.
  rewrite Z.mod_small; lia.
Qed.

Lemma wrap_int_succ (z : Z) : wrap_int (wrap_int z + 1) = wrap_int (z + 1).
Proof.
  unfold wrap_int.
  replace ((z + 2 ^ 31) mod 2 ^ 32 - 2 ^ 31 + 1 + 2 ^ 31)
    with ((z + 2 ^ 31) mod 2 ^ 32 + 1) by ring.
  rewrite Zplus_mod_idemp_l. do 2 f_equal. ring.
Qed.

Lemma to_size_t_small (z : Z) : 0 <= z <= INT_MAX -> to_size_t z = z.
Proof.
  unfold to_size_t, INT_MAX. intros H. apply Z.mod_small. lia.
Qed.

(* ===================================================================== *)
(** ** Facts about [find] and [getline] *)
(* ===================================================================== *)

Lemma string_app_assoc (a b c : string) :
  ((a ++ b) ++ c)%string = (a ++ b ++ c)%string.
Proof. induction a as [|x a IH]; simpl; [reflexivity | now rewrite IH]. Qed.

Lemma string_app_nil_r (a : string) : (a ++ EmptyString)%string = a.
Proof. induction a as [|x a IH]; simpl; [reflexivity | now rewrite IH]. Qed.

Lemma prefix_iff (p s : string) :
  prefix p s = true <-> exists t, s = (p ++ t)%string.
Proof.
  revert s. induction p as [|c p IH]; intros s.
  - split; [intros _; now exists s | intros _; destruct s; reflexivity].
  - destruct s as [|d s]; simpl.
    + split; [discriminate | intros [t Ht]; discriminate].
    + destruct (ascii_dec c d) as [->|Hne].
      * rewrite IH. split; intros [t Ht]; exists t; [now rewrite Ht | now inversion Ht].
      * split; [discriminate | intros [t Ht]; inversion Ht; congruence].
Qed.

Lemma prefix_empty (s : string) : prefix EmptyString s = true.
Proof. destruct s; reflexivity. Qed.

Lemma find_from_unfold (pos : nat) (line pat : string) :
  find_from pos line pat =
  if prefix pat line then Some pos
  else match line with
       | EmptyString => None
       | String _ rest => find_from (S pos) rest pat
       end.
Proof. destruct line; reflexivity. Qed.

Lemma prefix_substring (pat line : string) :
  prefix pat line = true -> substring_of pat line.
Proof.
  intros Hp. apply prefix_iff in Hp. destruct Hp as [t Ht].
  now exists EmptyString, t.
Qed.

Lemma find_from_some_iff (pos : nat) (line pat : string) :
  (exists n, find_from pos line pat = Some n) <-> substring_of pat line.
Proof.
  revert pos. induction line as [|c line IH]; intros pos;
    rewrite find_from_unfold.
  - destruct (prefix pat EmptyString) eqn:Hp.
    + split; [intros _; now apply prefix_substring | intros _; now exists pos].
    + split; [intros [n Hn]; discriminate |].
      intros [pre [post H]]. exfalso.
      destruct pre; [| discriminate]. simpl in H.
      assert (prefix pat EmptyString = true) by (apply prefix_iff; now exists post).
      congruence.
  - destruct (prefix pat (String c line)) eqn:Hp.
    + split; [intros _; now apply prefix_substring | intros _; now exists pos].
    + rewrite IH. split.
      * intros [pre [post H]]. exists (String c pre), post. simpl. now rewrite H.
      * intros [pre [post H]]. destruct pre as [|d pre].
        -- simpl in H.
           assert (prefix pat (String c line) = true)
             by (apply prefix_iff; now exists post).
           congruence.
        -- simpl in H. inversion H. now exists pre, post.
Qed.

(** [line.find(S) != npos] decides containment. *)
Lemma found_iff (line pat : string) :
  found line pat = true <-> substring_of pat line.
Proof.
  unfold found, find. rewrite <- (find_from_some_iff 0).
  destruct (find_from 0 line pat) as [n|].
  - split; [intros _; now exists n | reflexivity].
  - split; [discriminate | intros [n Hn]; discriminate].
Qed.

Lemma found_empty (line : string) : found line EmptyString = true.
Proof.
  unfold found, find. destruct line; simpl; reflexivity.
Qed.

(** The loop [while (std::getline(file, line))] visits [file_lines]. *)
Lemma file_lines_aux_getline (input cur : string) :
  file_lines_aux cur input =
  match getline input with
  | None => match cur with EmptyString => [] | _ => [cur] end
  | Some (line, rest) => (cur ++ line)%string :: file_lines rest
  end.
Proof.
  revert cur. induction input as [|c input IH]; intros cur; simpl.
  - reflexivity.
  - destruct (Ascii.eqb c newline).
    + now rewrite string_app_nil_r.
    + rewrite IH. destruct (getline input) as [[line rest]|].
      * now rewrite string_app_assoc.
      * unfold file_lines. simpl.
        destruct cur; reflexivity.
Qed.

Lemma file_lines_getline (input : string) :
  file_lines input =
  match getline input with
  | None => []
  | Some (line, rest) => line :: file_lines rest
  end.
Proof.
  unfold file_lines at 1. rewrite file_lines_aux_getline.
  destruct (getline input) as [[line rest]|]; reflexivity.
Qed.

Lemma getline_consumes (input line rest : string) :
  getline input = Some (line, rest) ->
  (String.length rest < String.length input)%nat.
Proof.
  revert line rest. induction input as [|c input IH]; intros line rest; simpl.
  - discriminate.
  - destruct (Ascii.eqb c newline).
    + intros H. inversion H. lia.
    + destruct (getline input) as [[l r]|] eqn:Hg.
      * intros H. inversion H. subst. specialize (IH _ _ eq_refl). lia.
      * intros H. inversion H. simpl. lia.
Qed.

(* ===================================================================== *)
(** ** Facts about the line scanner *)
(* ===================================================================== *)

Section ScannerFacts.
Variable env : Env.
Variable tid : thread_id.
Variable S : string.

Lemma scan_lines_spec (fuel : nat) :
  forall (p input : string) (k : nat) (results : list result_tuple),
    (String.length input <= fuel)%nat ->
    scan_lines tid S fuel p input (wrap_int (Z.of_nat k)) results
    = results ++ file_matches tid S p (Datatypes.S k) (file_lines input).
Proof.
  induction fuel as [|fuel IH]; intros p input k results Hlen.
  - destruct input; [| simpl in Hlen; lia].
    simpl. now rewrite app_nil_r.
  - simpl. rewrite file_lines_getline.
    destruct (getline input) as [[line rest]|] eqn:Hg.
    + apply getline_consumes in Hg.
      rewrite wrap_int_succ.
      replace (Z.of_nat k + 1) with (Z.of_nat (Datatypes.S k)) by lia.
      rewrite IH by lia. simpl.
      destruct (found line S); simpl.
      * now rewrite <- app_assoc.
      * reflexivity.
    + simpl. now rewrite app_nil_r.
Qed.

Lemma scan_file_spec (p : string) (results : list result_tuple)
    (trace : list io_event) :
  scan_file env tid S p (results, trace)
  = (results ++ file_records env tid S p, trace ++ file_events env p).
Proof.
  unfold scan_file, file_records, file_events.
  destruct (fs_open env p) as [content|].
  - f_equal. apply (scan_lines_spec _ p content 0). lia.
  - now rewrite app_nil_r.
Qed.

Lemma scan_files_spec (files : list string) :
  forall (results : list result_tuple) (trace : list io_event),
    scan_files env tid S files (results, trace)
    = (results ++ flat_map (file_records env tid S) files,
       trace ++ flat_map (file_events env) files).
Proof.
  induction files as [|p files IH]; intros results trace;
    cbn [scan_files flat_map].
  - now rewrite !app_nil_r.
  - rewrite scan_file_spec, IH. now rewrite <- !app_assoc.
Qed.

(** The records a worker returns: the matches of its files, file after
    file, or the placeholder when there is none. *)
Lemma searchFilesForString_records (files : list string) :
  fst (searchFilesForString env tid S files)
  = match flat_map (file_records env tid S) files with
    | [] => [placeholder tid]
    | records => records
    end.
Proof.
  unfold searchFilesForString. rewrite scan_files_spec. simpl.
  destruct (flat_map (file_records env tid S) files); reflexivity.
Qed.

Lemma searchFilesForString_trace (files : list string) :
  snd (searchFilesForString env tid S files)
  = flat_map (file_events env) files.
Proof.
  unfold searchFilesForString. rewrite scan_files_spec. simpl.
  destruct (flat_map (file_records env tid S) files); reflexivity.
Qed.

Lemma in_file_matches (p : string) (lines : list string) :
  forall (k : nat) (r : result_tuple),
    In r (file_matches tid S p k lines) <->
    exists (j : nat) (l : string),
      nth_error lines j = Some l /\ found l S = true
      /\ r = (tid, p, wrap_int (Z.of_nat (k + j)), l).
Proof.
  induction lines as [|l0 lines IH]; intros k r; simpl.
  - split; [tauto | intros [j [l [H _]]]; destruct j; discriminate].
  - rewrite in_app_iff, IH. split.
    + intros [H | [j [l [Hj [Hf Hr]]]]].
      * destruct (found l0 S) eqn:Hf0; [| contradiction].
        destruct H as [<- | []].
        exists 0%nat, l0. now rewrite Nat.add_0_r.
      * exists (Datatypes.S j), l. repeat split; try assumption.
        rewrite Hr. do 3 f_equal. lia.
    + intros [j [l [Hj [Hf Hr]]]]. destruct j as [|j]; simpl in Hj.
      * inversion Hj; subst l0. rewrite Hf. left. left.
        rewrite Hr. now rewrite Nat.add_0_r.
      * right. exists j, l. repeat split; try assumption.
        rewrite Hr. do 3 f_equal. lia.
Qed.


Lemma in_searchFilesForString (files : list string) (r : result_tuple) :
  In r (fst (searchFilesForString env tid S files)) <->
  (r = placeholder tid /\ flat_map (file_records env tid S) files = [])
  \/ In r (flat_map (file_records env tid S) files).
Proof.
  rewrite searchFilesForString_records.
  destruct (flat_map (file_records env tid S) files) as [|r0 rs]; simpl.
  - split; [intros [<- | []]; now left | intros [[-> _] | []]; now left].
  - split; [intros H; now right | intros [[_ H] | H]; [discriminate | exact H]].
Qed.

End ScannerFacts.

Lemma file_records_path (env : Env) (tid : thread_id) (S q : string)
    (r : result_tuple) :
  In r (file_records env tid S q) -> tuple_path r = q.
Proof.
  unfold file_records. destruct (fs_open env q); [| contradiction].
  intros H. apply in_file_matches in H.
  destruct H as [j [l [_ [_ ->]]]]. reflexivity.
Qed.

Lemma line_record_emitted (env : Env) (tid : thread_id) (S : string)
    (files : list string) (p content : string) (k : nat) (text : string) :
  In p files ->
  fs_open env p = Some content ->
  nth_error (file_lines content) k = Some text ->
  found text S = true ->
  In (tid, p, wrap_int (Z.of_nat k + 1), text)
     (fst (searchFilesForString env tid S files)).
Proof.
  intros Hp Hopen Hk Hf. apply in_searchFilesForString. right.
  apply in_flat_map. exists p. split; [assumption |].
  unfold file_records. rewrite Hopen. apply in_file_matches.
  exists k, text. repeat split; try assumption.
  do 3 f_equal. lia.
Qed.

(* ===================================================================== *)
(** ** Facts about the partitioning *)
(* ===================================================================== *)

Section Chunks.
Context {A : Type}.
Variable q : nat.

Lemma chunks_succ (n : nat) (l : list A) :
  chunks q (S (S n)) l = firstn q l :: chunks q (S n) (skipn q l).
Proof. reflexivity. Qed.

Lemma chunks_length (n : nat) :
  forall l : list A, List.length (chunks q n l) = n.
Proof.
  induction n as [|[|n] IH]; intros l; try reflexivity.
  rewrite chunks_succ. cbn [List.length]. now rewrite IH.
Qed.

Lemma chunks_concat (n : nat) :
  forall l : list A, List.concat (chunks q (S n) l) = l.
Proof.
  induction n as [|n IH]; intros l.
  - simpl. apply app_nil_r.
  - rewrite chunks_succ. cbn [List.concat]. rewrite IH. apply firstn_skipn.
Qed.


End Chunks.

Lemma collect_concat (futures : list future) :
  collect futures = List.concat (map fst futures).
Proof.
  unfold collect.
  assert (H : forall acc,
             fold_left (fun results f => results ++ fst f) futures acc
             = acc ++ List.concat (map fst futures)).
  { induction futures as [|f futures IH]; intros acc; simpl.
    - now rewrite app_nil_r.
    - rewrite IH. now rewrite app_assoc. }
  apply H.
Qed.

Lemma worker_results_length (env : Env) (S : string)
    (slices : list (list string)) :
  forall i, List.length (worker_results env S i slices) = List.length slices.
Proof.
  induction slices as [|s slices IH]; intros i; simpl; [reflexivity |].
  now rewrite IH.
Qed.

Lemma worker_results_nth (env : Env) (S : string)
    (slices : list (list string)) :
  forall (i : Z) (j : nat) (slice : list string),
    nth_error slices j = Some slice ->
    nth_error (worker_results env S i slices) j
    = Some (searchFilesForString env (async_thread env (i + Z.of_nat j))
                                 S slice).
Proof.
  induction slices as [|s slices IH]; intros i j slice H.
  - destruct j; discriminate.
  - destruct j as [|j]; simpl in *.
    + inversion H. now rewrite Z.add_0_r.
    + rewrite (IH (i + 1) j slice H). do 3 f_equal. lia.
Qed.

Section LaunchFacts.
Variable env : Env.
Variable S : string.
Variable files : list string.
Variable W : Z.
Hypothesis W_range : 1 <= W <= INT_MAX.
Hypothesis size_range : size files <= INT_MAX.
Hypothesis threads_start : forall i, 0 <= i < W -> async_starts env i = true.

(** The quotient the code stores in [files_per_thread]. *)
Lemma files_per_thread_value :
  wrap_int (size files / to_size_t W) = size files / W.
Proof.
  rewrite to_size_t_small by lia.
  assert (0 <= size files / W <= size files).
  { unfold size in *. split.
    - apply Z.div_pos; lia.
    - apply Z.div_le_upper_bound; nia. }
  apply wrap_int_small. unfold in_int, INT_MIN, INT_MAX in *. lia.
Qed.

Lemma slices_fit : 0 <= size files / W /\ W * (size files / W) <= size files.
Proof.
  unfold size in *. split.
  - apply Z.div_pos; lia.
  - apply Z.mul_div_le. lia.
Qed.

(** The slice task [i] is given: the code's index arithmetic stays inside
    the vector and inside [int]. *)
Lemma task_slice (i : Z) :
  0 <= i < W ->
  wrap_int (i + 1) = i + 1
  /\ subvector files (start_index (size files / W) i)
                (end_index files W (size files / W) i)
     = Some (if i + 1 =? W
             then skipn (Z.to_nat (i * (size files / W))) files
             else firstn (Z.to_nat (size files / W))
                         (skipn (Z.to_nat (i * (size files / W))) files)).
Proof.
  intros Hi. pose proof slices_fit as [Hq0 HqW].
  assert (HL : size files = Z.of_nat (List.length files)) by reflexivity.
  unfold INT_MAX in *.
  assert (Hnext : wrap_int (i + 1) = i + 1).
  { apply wrap_int_small. unfold in_int, INT_MIN, INT_MAX. lia. }
  split; [exact Hnext |].
  assert (Hstart : start_index (size files / W) i = i * (size files / W)).
  { unfold start_index. apply wrap_int_small.
    unfold in_int, INT_MIN, INT_MAX. nia. }
  rewrite Hstart. unfold end_index. rewrite Hnext.
  destruct (i + 1 =? W) eqn:Hlast.
  - (* the last task takes everything that is left *)
    apply Z.eqb_eq in Hlast.
    rewrite (wrap_int_small (size files))
      by (unfold in_int, INT_MIN, INT_MAX; lia).
    unfold subvector.
    replace ((0 <=? i * (size files / W))
             && (i * (size files / W) <=? size files)
             && (size files <=? Z.of_nat (List.length files)))
      with true
      by (symmetry; rewrite !andb_true_iff, !Z.leb_le; nia).
    rewrite firstn_all2 by (rewrite length_skipn; lia).
    reflexivity.
  - apply Z.eqb_neq in Hlast.
    assert (Hend : wrap_int (to_size_t
                     (wrap_int ((i + 1) * (size files / W))))
                   = (i + 1) * (size files / W)).
    { assert (0 <= (i + 1) * (size files / W) <= size files) by nia.
      rewrite (wrap_int_small ((i + 1) * (size files / W)))
        by (unfold in_int, INT_MIN, INT_MAX; lia).
      rewrite to_size_t_small by (unfold INT_MAX; lia).
      apply wrap_int_small. unfold in_int, INT_MIN, INT_MAX. lia. }
    rewrite Hend. unfold subvector.
    replace ((0 <=? i * (size files / W))
             && (i * (size files / W) <=? (i + 1) * (size files / W))
             && ((i + 1) * (size files / W)
                 <=? Z.of_nat (List.length files)))
      with true
      by (symmetry; rewrite !andb_true_iff, !Z.leb_le; nia).
    replace ((i + 1) * (size files / W) - i * (size files / W))
      with (size files / W) by ring.
    reflexivity.
Qed.

Lemma launch_spec (fuel : nat) :
  forall (i : Z) (futures : list future),
    0 <= i ->
    i + Z.of_nat fuel = W ->
    launch env S files W (size files / W) fuel i futures
    = (futures
       ++ worker_results env S i
            (chunks (Z.to_nat (size files / W)) fuel
                    (skipn (Z.to_nat (i * (size files / W))) files)),
       Returned tt).
Proof.
  pose proof slices_fit as [Hq0 HqW].
  induction fuel as [|fuel IH]; intros i futures Hi Hfuel.
  - simpl. now rewrite app_nil_r.
  - cbn [launch].
    assert (Hlt : (i <? W) = true) by (apply Z.ltb_lt; lia).
    rewrite Hlt.
    destruct (task_slice i ltac:(lia)) as [Hnext Hslice].
    rewrite Hslice, Hnext, threads_start by lia.
    destruct fuel as [|fuel].
    + replace (i + 1 =? W) with true by (symmetry; apply Z.eqb_eq; lia).
      reflexivity.
    + replace (i + 1 =? W) with false by (symmetry; apply Z.eqb_neq; lia).
      rewrite IH by lia.
      rewrite chunks_succ, skipn_skipn. cbn [worker_results].
      rewrite <- app_assoc. cbn [app].
      replace (Z.to_nat (size files / W) + Z.to_nat (i * (size files / W)))%nat
        with (Z.to_nat ((i + 1) * (size files / W))) by nia.
      reflexivity.
Qed.


End LaunchFacts.

(** What the coordinator returns for a usable worker count. *)
Lemma searchDirectoryForString_spec (env : Env) (S root : string) (W : Z)
    (files : list string) :
  enumerate_files env root = Returned files ->
  1 <= W <= INT_MAX ->
  size files <= INT_MAX ->
  (forall i, 0 <= i < W -> async_starts env i = true) ->
  searchDirectoryForString env S root W
  = let slices := chunks (Z.to_nat (size files / W)) (Z.to_nat W) files in
    (Returned (List.concat (map fst (worker_results env S 0 slices)), size files),
     {| caller_thread := [DirectoryWalk root];
        worker_threads := map snd (worker_results env S 0 slices) |}).
Proof.
  intros Henum HW HL Hstart. unfold searchDirectoryForString. rewrite Henum.
  assert (Hnz : (to_size_t W =? 0) = false).
  { apply Z.eqb_neq. rewrite to_size_t_small; lia. }
  rewrite Hnz, files_per_thread_value by assumption.
  rewrite (launch_spec env S files W HW HL Hstart (Z.to_nat W) 0 []) by lia.
  cbn [app]. rewrite Z.mul_0_l. cbn [Z.to_nat skipn].
  rewrite collect_concat.
  rewrite wrap_int_small
    by (unfold in_int, INT_MIN, INT_MAX, size in *; lia).
  reflexivity.
Qed.

Lemma file_matches_in_line_order (tid : thread_id) (S p : string)
    (lines : list string) :
  file_matches tid S p 1 lines = records_in_line_order tid S p lines.
Proof.
  unfold records_in_line_order, numbered_lines. generalize 1%nat.
  induction lines as [|l lines IH]; intros k; simpl; [reflexivity |].
  rewrite IH. destruct (found l S); reflexivity.
Qed.

(* ===================================================================== *)
(** ** Match completeness *)
(* ===================================================================== *)

(** C1.  Let [p] be a file of the partition that can be opened and whose
    number of lines fits the [int] line counter.  The records
    [searchFilesForString] returns for [p] (path [p], line number at
    least 1) are exactly the tuples [(tid, p, k + 1, text)] where [text]
    is the line at 0-based position [k] of the file, without its
    terminator, and contains the search string as a contiguous,
    case-sensitive run of characters: the line number counts every line
    read, matching or not. *)
Theorem C1_match_records_exact
    (env : Env) (tid : thread_id) (S : string) (files : list string)
    (p content : string) (r : result_tuple) :
  In p files ->
  fs_open env p = Some content ->
  Z.of_nat (List.length (file_lines content)) <= INT_MAX ->
  (In r (fst (searchFilesForString env tid S files))
   /\ tuple_path r = p /\ 1 <= tuple_line_number r)
  <->
  (exists (k : nat) (text : string),
      nth_error (file_lines content) k = Some text
      /\ substring_of S text
      /\ r = (tid, p, Z.of_nat k + 1, text)).
Proof.
  intros Hp Hopen Hlen. split.
  - intros [Hin [Hpath Hline]].
    apply in_searchFilesForString in Hin.
    destruct Hin as [[-> _] | Hin]; [simpl in Hline; lia |].
    apply in_flat_map in Hin. destruct Hin as [q [_ Hq]].
    pose proof (file_records_path _ _ _ _ _ Hq) as Hpq.
    rewrite Hpath in Hpq. subst q.
    unfold file_records in Hq. rewrite Hopen in Hq.
    apply in_file_matches in Hq.
    destruct Hq as [j [l [Hj [Hf ->]]]].
    exists j, l. repeat split; try assumption.
    + now apply found_iff.
    + assert (j < List.length (file_lines content))%nat
        by (apply nth_error_Some; congruence).
      rewrite wrap_int_small; unfold in_int, INT_MIN, INT_MAX in *;
        [do 3 f_equal |]; lia.
  - intros [k [text [Hk [Hsub ->]]]].
    assert (k < List.length (file_lines content))%nat
      by (apply nth_error_Some; congruence).
    repeat split; simpl; try lia.
    rewrite <- (wrap_int_small (Z.of_nat k + 1))
      by (unfold in_int, INT_MIN, INT_MAX in *; lia).
    apply line_record_emitted with (content := content); try assumption.
    now apply found_iff.
Qed.

Lemma C1_match_records_exact_witness :
  In (7%nat, "root/b.txt", 2, "foo again")
     (fst (searchFilesForString Example.env 7%nat "foo"
             ["root/a.txt"; "root/locked.txt"; "root/b.txt"])).
Proof.
  apply (proj2 (C1_match_records_exact Example.env 7%nat "foo"
                  ["root/a.txt"; "root/locked.txt"; "root/b.txt"]
                  "root/b.txt" Example.b_txt
                  (7%nat, "root/b.txt", 2, "foo again")
                  ltac:(simpl; tauto) eq_refl ltac:(vm_compute; discriminate))).
  exists 1%nat, "foo again". repeat split.
  now exists EmptyString, " again".
Defined.

(* ===================================================================== *)
(** ** The empty search string *)
(* ===================================================================== *)

(** C9.  With the empty search string every line of every file of the
    partition that can be opened yields a record: [find] of the empty string
    is position 0 on every line.  The record of the line at 0-based position
    [k] carries the value of the [int] counter after [k + 1] increments,
    which is [k + 1] as long as that fits an [int]. *)
Theorem C9_empty_search_string
    (env : Env) (tid : thread_id) (files : list string)
    (p content : string) (k : nat) (text : string) :
  In p files ->
  fs_open env p = Some content ->
  nth_error (file_lines content) k = Some text ->
  find text EmptyString = Some 0%nat
  /\ In (tid, p, wrap_int (Z.of_nat k + 1), text)
        (fst (searchFilesForString env tid EmptyString files))
  /\ (Z.of_nat k + 1 <= INT_MAX ->
      In (tid, p, Z.of_nat k + 1, text)
         (fst (searchFilesForString env tid EmptyString files))).
Proof.
  intros Hp Hopen Hk.
  assert (Hin : In (tid, p, wrap_int (Z.of_nat k + 1), text)
                   (fst (searchFilesForString env tid EmptyString files))).
  { apply line_record_emitted with (content := content); try assumption.
    apply found_empty. }
  repeat split.
  - unfold find. now destruct text.
  - exact Hin.
  - intros Hle. rewrite wrap_int_small in Hin; [exact Hin |].
    unfold in_int, INT_MIN, INT_MAX in *. lia.
Qed.

Lemma C9_empty_search_string_witness :
  In (7%nat, "root/a.txt", 2, "bar baz")
     (fst (searchFilesForString Example.env 7%nat EmptyString
             ["root/locked.txt"; "root/a.txt"])).
Proof.
  apply (proj2 (proj2
    (C9_empty_search_string Example.env 7%nat
       ["root/locked.txt"; "root/a.txt"] "root/a.txt" Example.a_txt
       1%nat "bar baz" ltac:(simpl; tauto) eq_refl eq_refl))).
  vm_compute. discriminate.
Defined.

(* ===================================================================== *)
(** ** Fault isolation inside a partition *)
(* ===================================================================== *)



(* ===================================================================== *)
(** ** The placeholder of a worker without matches *)
(* ===================================================================== *)



(* ===================================================================== *)
(** ** Partition coverage and sizes *)
(* ===================================================================== *)

Lemma opened_paths_file_events (env : Env) (files : list string) :
  opened_paths (flat_map (file_events env) files) = files.
Proof.
  unfold opened_paths.
  induction files as [|p files IH]; simpl; [reflexivity |].
  rewrite flat_map_app, IH. unfold file_events.
  destruct (fs_open env p); reflexivity.
Qed.




(* ===================================================================== *)
(** ** Order of the aggregated records *)
(* ===================================================================== *)

(** C4.  When [W >= 1] workers scan the [L] enumerated files ([W] and [L]
    within [int], and the [W] threads can be started), the call returns
    and the records [searchDirectoryForString] returns are the
    lists of worker 0, worker 1, ..., worker [W - 1] one after the other,
    worker [j] being the task given slice [j] of the file list.  The list
    of one worker holds, file after file in the order of its slice, the
    records of the matching lines of each file from the first line to the
    last (or is the placeholder alone when there is no match). *)
Theorem C4_records_in_worker_order
    (env : Env) (S root : string) (W : Z) (files : list string) :
  enumerate_files env root = Returned files ->
  1 <= W <= INT_MAX ->
  size files <= INT_MAX ->
  (forall i, 0 <= i < W -> async_starts env i = true) ->
  exists slices : list (list string),
    Z.of_nat (List.length slices) = W
    /\ List.concat slices = files
    /\ fst (searchDirectoryForString env S root W)
       = Returned (List.concat (map fst (worker_results env S 0 slices)),
                   size files)
    /\ forall (j : nat) (slice : list string),
         nth_error slices j = Some slice ->
         let tid := async_thread env (Z.of_nat j) in
         nth_error (map fst (worker_results env S 0 slices)) j
         = Some (fst (searchFilesForString env tid S slice))
         /\ fst (searchFilesForString env tid S slice)
            = match
                flat_map
                  (fun p =>
                     match fs_open env p with
                     | Some content =>
                         records_in_line_order tid S p (file_lines content)
                     | None => []
                     end) slice
              with
              | [] => [(tid, EmptyString, 0, EmptyString)]
              | records => records
              end.
Proof.
  intros Henum HW HL Hstart.
  exists (chunks (Z.to_nat (size files / W)) (Z.to_nat W) files).
  split; [| split; [| split]].
  - rewrite chunks_length. lia.
  - destruct (Z.to_nat W) as [|n] eqn:E; [lia |]. apply chunks_concat.
  - now rewrite (searchDirectoryForString_spec env S root W files).
  - intros j slice Hj tid. split.
    + rewrite nth_error_map.
      pose proof (worker_results_nth env S _ 0 j slice Hj) as Hw.
      unfold future in *. rewrite Hw. reflexivity.
    + rewrite searchFilesForString_records.
      replace (flat_map (file_records env tid S) slice)
        with (flat_map
                (fun p =>
                   match fs_open env p with
                   | Some content =>
                       records_in_line_order tid S p (file_lines content)
                   | None => []
                   end) slice); [reflexivity |].
      apply flat_map_ext. intros p. unfold file_records.
      destruct (fs_open env p); [| reflexivity].
      symmetry. apply file_matches_in_line_order.
Qed.

Lemma C4_records_in_worker_order_witness :
  exists slices : list (list string),
    List.concat slices = ["root/a.txt"; "root/locked.txt"; "root/b.txt"]
    /\ fst (searchDirectoryForString Example.env "foo" "root" 2)
       = Returned
           (List.concat (map fst (worker_results Example.env "foo" 0 slices)),
            3).
Proof.
  destruct (C4_records_in_worker_order Example.env "foo" "root" 2
              ["root/a.txt"; "root/locked.txt"; "root/b.txt"]
              eq_refl ltac:(unfold INT_MAX; lia)
              ltac:(vm_compute; discriminate) ltac:(reflexivity))
    as [slices [_ [Hcat [Hrec _]]]].
  exists slices. split; assumption.
Defined.

(** The end-to-end example: [a.txt] with the lines "foo" and "bar baz",
    [b.txt] with the lines "nothing" and "foo again", search string "foo"
    and two workers. *)
Example end_to_end :
  searchDirectoryForString Example.two_files "foo" "root" 2
  = (Returned ([(100%nat, "root/a.txt", 1, "foo");
                (101%nat, "root/b.txt", 2, "foo again")], 2),
     {| caller_thread := [DirectoryWalk "root"];
        worker_threads :=
          [[IfstreamOpen "root/a.txt" true; IfstreamClose "root/a.txt"];
           [IfstreamOpen "root/b.txt" true; IfstreamClose "root/b.txt"]] |}).
Proof. vm_compute. reflexivity. Qed.

(* ===================================================================== *)
(** ** Structural errors *)
(* ===================================================================== *)

Lemma bad_root_throws (env : Env) (S root : string) (W : Z) :
  fs_status env root <> Some Directory ->
  searchDirectoryForString env S root W
  = (Threw filesystem_error,
     {| caller_thread := [DirectoryWalk root]; worker_threads := [] |}).
Proof.
  intros Hroot. unfold searchDirectoryForString, enumerate_files.
  destruct (fs_status env root) as [[| |]|]; try reflexivity.
  now contradiction Hroot.
Qed.

(** C8.  When the root path does not exist or is not a directory,
    [searchDirectoryForString] ends with the [fs::filesystem_error] the
    directory iterator throws, whatever the worker count: the exception
    leaves the function uncaught, the only operation performed is the
    attempt to walk the root, no task has been launched and no result
    pair is produced. *)
Theorem C8_directory_not_found
    (env : Env) (S root : string) (W : Z) :
  fs_status env root <> Some Directory ->
  searchDirectoryForString env S root W
  = (Threw filesystem_error,
     {| caller_thread := [DirectoryWalk root]; worker_threads := [] |}).
Proof. apply bad_root_throws. Qed.

Lemma C8_directory_not_found_witness :
  searchDirectoryForString Example.env "foo" "missing" 2
  = (Threw filesystem_error,
     {| caller_thread := [DirectoryWalk "missing"]; worker_threads := [] |})
  /\ searchDirectoryForString Example.env "foo" "root/a.txt" 2
     = (Threw filesystem_error,
        {| caller_thread := [DirectoryWalk "root/a.txt"];
           worker_threads := [] |}).
Proof.
  split.
  - apply (C8_directory_not_found Example.env "foo" "missing" 2).
    vm_compute. discriminate.
  - apply (C8_directory_not_found Example.env "foo" "root/a.txt" 2).
    vm_compute. discriminate.
Defined.

(** The driver on a bad root given with [-d].  When nothing exists at
    the path the program prints that the directory does not exist and
    returns 1 before the scan is called; when the existence test itself
    fails (a name that is too long, a directory that cannot be searched)
    the exception [fs::exists] throws ends the program, again before the
    scan; a path that exists without being a directory reaches the scan,
    whose exception nobody catches. *)
Lemma main_bad_directory (env : Env) (prog S d : string) :
  let root := (fs_cwd env ++ backslash ++ d)%string in
  (fs_status env root = None -> fs_status_error env root = false ->
   main env [prog; S; "-d"; d]
   = (Exit 1,
      on_caller [FsCurrentPath; FsExists root;
                 Cerr ("Error: directory does not exist" ++ endl)%string]))
  /\ (fs_status env root = None -> fs_status_error env root = true ->
      main env [prog; S; "-d"; d]
      = (Terminate filesystem_error,
         on_caller [FsCurrentPath; FsExists root]))
  /\ (forall t, fs_status env root = Some t -> t <> Directory ->
       main env [prog; S; "-d"; d]
       = (Terminate filesystem_error,
          on_caller [FsCurrentPath; FsExists root; DirectoryWalk root])).
Proof.
  intros root. split; [| split].
  - intros Hroot Herr.
    cbv -[usage program_name_of append backslash searchDirectoryForString
          fs_status fs_status_error fs_cwd path_filename].
    fold root. rewrite Hroot, Herr. reflexivity.
  - intros Hroot Herr.
    cbv -[usage program_name_of append backslash searchDirectoryForString
          fs_status fs_status_error fs_cwd path_filename].
    fold root. rewrite Hroot, Herr. reflexivity.
  - intros t Hroot Ht.
    cbv -[usage program_name_of append backslash searchDirectoryForString
          fs_status fs_status_error fs_cwd path_filename].
    fold root. rewrite Hroot.
    rewrite bad_root_throws by (rewrite Hroot; congruence).
    reflexivity.
Qed.

(** A worker count below 1 is not rejected: a negative count walks the
    directory, launches nothing and returns an empty record list with the
    file count; the count 0 walks the directory and then divides by
    zero. *)
Lemma nonpositive_thread_count (env : Env) (S root : string) (W : Z)
    (files : list string) :
  enumerate_files env root = Returned files ->
  INT_MIN <= W <= 0 ->
  searchDirectoryForString env S root W
  = (if W =? 0 then Undefined DivisionByZero
     else Returned ([], wrap_int (size files)),
     {| caller_thread := [DirectoryWalk root]; worker_threads := [] |}).
Proof.
  intros Henum HW. unfold searchDirectoryForString. rewrite Henum.
  destruct (W =? 0) eqn:E.
  - apply Z.eqb_eq in E. subst W. reflexivity.
  - apply Z.eqb_neq in E.
    assert (Hnz : (to_size_t W =? 0) = false).
    { apply Z.eqb_neq. unfold to_size_t, INT_MIN in *.
      replace W with (W + 2 ^ 64 + (-1) * 2 ^ 64) by ring.
      rewrite Z.mod_add by lia. rewrite Z.mod_small; lia. }
    rewrite Hnz.
    replace (Z.to_nat W) with 0%nat by lia. reflexivity.
Qed.

(** C3.  What the code does for the worker counts -1 and 0 on the example
    tree: with [-t -1] the program walks the directory, launches no task
    and exits with status 0; with [-t 0] it walks the directory and then
    divides by zero.  Neither run is rejected as an invalid worker count,
    and both enumerate first. *)
Theorem C3_nonpositive_count_not_rejected :
  main Example.env ["specific_grep"; "foo"; "-t"; "-1"]
  = (Exit 0,
     {| caller_thread := [FsCurrentPath; DirectoryWalk "root"];
        worker_threads := [] |})
  /\ main Example.env ["specific_grep"; "foo"; "-t"; "0"]
     = (Undef DivisionByZero,
        {| caller_thread := [FsCurrentPath; DirectoryWalk "root"];
           worker_threads := [] |})
  /\ searchDirectoryForString Example.env "foo" "root" (-1)
     = (Returned ([], 3),
        {| caller_thread := [DirectoryWalk "root"]; worker_threads := [] |})
  /\ searchDirectoryForString Example.env "foo" "root" 0
     = (Undefined DivisionByZero,
        {| caller_thread := [DirectoryWalk "root"]; worker_threads := [] |}).
Proof. repeat split; vm_compute; reflexivity. Qed.

(* ===================================================================== *)
(** ** I/O performed by the core *)
(* ===================================================================== *)

Lemma file_events_scanner (env : Env) (p : string) :
  Forall (scanner_event env) (file_events env p).
Proof.
  unfold file_events, scanner_event, opens_for_reading.
  destruct (fs_open env p) eqn:Hopen.
  - constructor; [left; left; eauto | constructor; [| constructor]].
    left; right; eauto.
  - constructor; [left; left; eauto | constructor; [| constructor]].
    right; eauto.
Qed.

Lemma worker_trace_scanner (env : Env) (tid : thread_id) (S : string)
    (files : list string) :
  Forall (scanner_event env) (snd (searchFilesForString env tid S files)).
Proof.
  rewrite searchFilesForString_trace. apply Forall_forall.
  intros e He. apply in_flat_map in He. destruct He as [p [_ He]].
  pose proof (file_events_scanner env p) as H.
  rewrite Forall_forall in H. now apply H.
Qed.

Lemma launch_traces (env : Env) (S : string) (files : list string)
    (W fpt : Z) (fuel : nat) :
  forall (i : Z) (futures futures' : list future) (ending : outcome unit),
    launch env S files W fpt fuel i futures = (futures', ending) ->
    Forall (fun f => Forall (scanner_event env) (snd f)) futures ->
    Forall (fun f => Forall (scanner_event env) (snd f)) futures'.
Proof.
  induction fuel as [|fuel IH]; intros i futures futures' ending H Hall.
  - simpl in H. inversion H. now subst.
  - cbn [launch] in H. destruct (i <? W).
    + destruct (subvector files (start_index fpt i) (end_index files W fpt i))
        as [slice|]; [| inversion H; now subst].
      destruct (async_starts env i); [| inversion H; now subst].
      apply IH in H; [exact H |].
      apply Forall_app. split; [exact Hall |].
      constructor; [apply worker_trace_scanner | constructor].
    + inversion H. now subst.
Qed.

Lemma scanner_event_no_persistence (env : Env) (e : io_event) :
  scanner_event env e -> persists e = false.
Proof.
  intros [[[p [ok ->]] | [p ->]] | [p [_ ->]]]; reflexivity.
Qed.

(** The effects of the coordinator, for every root and worker count. *)
Lemma coordinator_effects (env : Env) (S root : string) (W : Z) :
  let eff := snd (searchDirectoryForString env S root W) in
  caller_thread eff = [DirectoryWalk root]
  /\ Forall (Forall (scanner_event env)) (worker_threads eff).
Proof.
  unfold searchDirectoryForString.
  destruct (enumerate_files env root) as [files| |]; simpl; auto.
  destruct (to_size_t W =? 0); simpl; auto.
  destruct (launch env S files W
              (wrap_int (size files / to_size_t W)) (Z.to_nat W) 0 [])
    as [futures ending] eqn:Hl.
  apply launch_traces in Hl; [| constructor].
  assert (Forall (Forall (scanner_event env)) (map snd futures))
    by (apply Forall_map; exact Hl).
  destruct ending; simpl; auto.
Qed.

(** C7 (as stated) fails: on the example tree one of the two workers is
    given a file that cannot be opened and writes a line on [std::cerr],
    so opening files for reading is not the only I/O of the core. *)
Lemma C7_counterexample :
  ~ Forall (Forall opens_for_reading)
      (worker_threads
         (snd (searchDirectoryForString Example.env "foo" "root" 2))).
Proof.
  vm_compute. intros H.
  inversion H as [|t ts _ Hts]; subst.
  inversion Hts as [|t' ts' Ht' _]; subst.
  inversion Ht' as [|e es _ Hes]; subst.
  inversion Hes as [|e' es' [[p [ok He]] | [p He]] _]; discriminate.
Qed.

(** C7 (amended).  For every root and worker count the calling thread of
    [searchDirectoryForString] does nothing but walk the root directory,
    and every operation of every worker is the opening or closing of a
    candidate file for reading or the error line written on [std::cerr]
    for a file that could not be opened.  The core never creates or
    writes a file and never prints on standard output. *)
Theorem C7_core_io
    (env : Env) (S root : string) (W : Z) :
  let eff := snd (searchDirectoryForString env S root W) in
  caller_thread eff = [DirectoryWalk root]
  /\ Forall (Forall (scanner_event env)) (worker_threads eff)
  /\ no_persistence eff.
Proof.
  intros eff. destruct (coordinator_effects env S root W) as [Hc Hw].
  fold eff in Hc, Hw. repeat split; try assumption.
  - rewrite Hc. repeat constructor.
  - eapply Forall_impl; [| exact Hw].
    intros t Ht. eapply Forall_impl; [| exact Ht].
    apply scanner_event_no_persistence.
Qed.

(* ===================================================================== *)
(** ** The driver and the output file names *)
(* ===================================================================== *)

Lemma quiet_app (t u : list io_event) : quiet t -> quiet u -> quiet (t ++ u).
Proof. intros Ht Hu. apply Forall_app. now split. Qed.

Lemma fail_quiet (trace : list io_event) (msg : string) (s : status)
    (trace' : list io_event) :
  quiet trace -> fail trace msg = Stop s trace' -> quiet trace'.
Proof.
  unfold fail. intros Hq H. inversion H. subst.
  apply quiet_app; [assumption | repeat constructor].
Qed.

Lemma handle_option_quiet (env : Env) (opt value : string) (vars : locals)
    (trace : list io_event) :
  quiet trace ->
  match handle_option env opt value vars trace with
  | Continue _ trace' => quiet trace'
  | Stop _ trace' => quiet trace'
  end.
Proof.
  intros Hq.
  assert (Hfail : forall msg,
             match fail trace msg with
             | Continue _ t' => quiet t'
             | Stop _ t' => quiet t'
             end).
  { intros msg. unfold fail. apply quiet_app; [assumption | repeat constructor]. }
  unfold handle_option.
  destruct (String.eqb opt "-d" || String.eqb opt "--dir").
  { destruct (dir_opt vars); [apply Hfail |].
    assert (Hq' : forall p, quiet (trace ++ [FsExists p]))
      by (intros p; apply quiet_app; [assumption | repeat constructor]).
    destruct (fs_exists env _) as [[|]|e|u]; try apply Hq'.
    unfold fail. apply quiet_app; [apply Hq' | repeat constructor]. }
  destruct (String.eqb opt "-l" || String.eqb opt "--log_file").
  { destruct (log_filename_opt vars); [apply Hfail |].
    destruct (negb (isValidFilename value)); [apply Hfail | assumption]. }
  destruct (String.eqb opt "-r" || String.eqb opt "--result_file").
  { destruct (result_filename_opt vars); [apply Hfail |].
    destruct (negb (isValidFilename value)); [apply Hfail | assumption]. }
  destruct (String.eqb opt "-t" || String.eqb opt "--threads").
  { destruct (thread_cnt_opt vars); [apply Hfail |].
    destruct (stoi value) as [n|[| | |]|u]; try assumption; apply Hfail. }
  apply Hfail.
Qed.

Lemma option_loop_quiet (env : Env) (argv : list string) (cnt : Z)
    (fuel : nat) :
  forall (i : Z) (vars : locals) (trace : list io_event),
    quiet trace ->
    match option_loop env argv cnt fuel i vars trace with
    | Continue _ trace' => quiet trace'
    | Stop _ trace' => quiet trace'
    end.
Proof.
  induction fuel as [|fuel IH]; intros i vars trace Hq; cbn [option_loop].
  - assumption.
  - destruct (i <=? cnt); [| assumption].
    pose proof (handle_option_quiet env (arg argv (i * 2))
                  (arg argv (i * 2 + 1)) vars trace Hq) as H.
    destruct (handle_option env (arg argv (i * 2)) (arg argv (i * 2 + 1))
                            vars trace) as [vars' trace'|s trace'].
    + now apply IH.
    + assumption.
Qed.

(** No run of [main] creates or writes a file or prints on standard
    output. *)
Lemma main_no_persistence (env : Env) (argv : list string) :
  no_persistence (snd (main env argv)).
Proof.
  unfold main, no_persistence.
  destruct argv as [|argv0 rest]; [simpl; split; constructor |].
  destruct (Z.of_nat (List.length (argv0 :: rest)) =? 1);
    [simpl; split; repeat constructor |].
  destruct (negb (Z.rem (Z.of_nat (List.length (argv0 :: rest))) 2 =? 0)
            || (Z.of_nat (List.length (argv0 :: rest)) >? 10));
    [simpl; split; repeat constructor |].
  match goal with
  | |- context [option_loop ?e ?a ?c ?f ?i ?v ?t] =>
      pose proof (option_loop_quiet e a c f i v t
                    ltac:(repeat constructor)) as Hloop;
      destruct (option_loop e a c f i v t) as [vars trace|s trace]
  end.
  - pose proof (C := coordinator_effects env (arg (argv0 :: rest) 1)
                       (directory_path vars) (thread_cnt vars)).
    destruct (searchDirectoryForString env (arg (argv0 :: rest) 1)
                (directory_path vars) (thread_cnt vars))
      as [results eff].
    simpl in C. destruct C as [Hc Hw].
    assert (quiet (trace ++ caller_thread eff)).
    { apply quiet_app; [assumption |]. rewrite Hc. repeat constructor. }
    assert (Forall (Forall (fun e => persists e = false))
                   (worker_threads eff)).
    { eapply Forall_impl; [| exact Hw].
      intros t Ht. eapply Forall_impl; [| exact Ht].
      apply scanner_event_no_persistence. }
    destruct results; simpl; split; assumption.
  - simpl. split; [assumption | constructor].
Qed.

Lemma same_search_inputs_refl (v : locals) : same_search_inputs v v.
Proof. repeat split. Qed.

Lemma step_related_fail (trace : list io_event) (msg : string) :
  step_related (fail trace msg) (fail trace msg).
Proof. unfold fail. simpl. auto. Qed.

Lemma names_output_file_cases (opt : string) :
  names_output_file opt = true ->
  (String.eqb opt "-d" || String.eqb opt "--dir") = false
  /\ ((String.eqb opt "-l" || String.eqb opt "--log_file") = true
      \/ ((String.eqb opt "-l" || String.eqb opt "--log_file") = false
          /\ (String.eqb opt "-r" || String.eqb opt "--result_file") = true)).
Proof.
  unfold names_output_file. intros H.
  destruct (String.eqb opt "-l") eqn:E1;
    [apply String.eqb_eq in E1; subst opt; simpl; auto |].
  destruct (String.eqb opt "--log_file") eqn:E2;
    [apply String.eqb_eq in E2; subst opt; simpl; auto |].
  destruct (String.eqb opt "-r") eqn:E3;
    [apply String.eqb_eq in E3; subst opt; simpl; auto |].
  destruct (String.eqb opt "--result_file") eqn:E4;
    [apply String.eqb_eq in E4; subst opt; simpl; auto |].
  discriminate.
Qed.

(** One iteration of the option loop keeps two runs together when they
    are given the same option with the same argument, or an output-file
    option with two valid file names. *)
Lemma handle_option_related (env : Env) (opt value value' : string)
    (v v' : locals) (trace : list io_event) :
  same_search_inputs v v' ->
  value = value'
  \/ (names_output_file opt = true
      /\ isValidFilename value = true /\ isValidFilename value' = true) ->
  step_related (handle_option env opt value v trace)
               (handle_option env opt value' v' trace).
Proof.
  intros (Hdir & Hcnt & Hd & Hl & Hr & Ht) Hval.
  destruct Hval as [<- | (Hname & Hv & Hv')].
  - unfold handle_option. rewrite <- Hdir, <- Hd, <- Hl, <- Hr, <- Ht.
    destruct (String.eqb opt "-d" || String.eqb opt "--dir").
    { destruct (dir_opt v); [apply step_related_fail |].
      destruct (fs_exists env _) as [[|]|e|u];
        [| apply step_related_fail | simpl; auto | simpl; auto].
      simpl. unfold same_search_inputs. simpl. tauto. }
    destruct (String.eqb opt "-l" || String.eqb opt "--log_file").
    { destruct (log_filename_opt v); [apply step_related_fail |].
      destruct (negb (isValidFilename value)); [apply step_related_fail |].
      simpl. unfold same_search_inputs. simpl. tauto. }
    destruct (String.eqb opt "-r" || String.eqb opt "--result_file").
    { destruct (result_filename_opt v); [apply step_related_fail |].
      destruct (negb (isValidFilename value)); [apply step_related_fail |].
      simpl. unfold same_search_inputs. simpl. tauto. }
    destruct (String.eqb opt "-t" || String.eqb opt "--threads").
    { destruct (thread_cnt_opt v); [apply step_related_fail |].
      destruct (stoi value) as [n|[| | |]|u]; simpl; auto;
        unfold same_search_inputs; simpl; tauto. }
    apply step_related_fail.
  - apply names_output_file_cases in Hname.
    destruct Hname as [Hnd [Hlog | [Hnl Hres]]];
      unfold handle_option; rewrite Hnd.
    + rewrite Hlog, <- Hl, Hv, Hv'.
      destruct (log_filename_opt v); [apply step_related_fail |].
      simpl. unfold same_search_inputs. simpl. tauto.
    + rewrite Hnl, Hres, <- Hr, Hv, Hv'.
      destruct (result_filename_opt v); [apply step_related_fail |].
      simpl. unfold same_search_inputs. simpl. tauto.
Qed.

Lemma same_args_at (argv argv' : list string) (i : Z) :
  same_up_to_output_names argv argv' ->
  1 <= i ->
  arg argv (i * 2) = arg argv' (i * 2)
  /\ (arg argv (i * 2 + 1) = arg argv' (i * 2 + 1)
      \/ (names_output_file (arg argv (i * 2)) = true
          /\ isValidFilename (arg argv (i * 2 + 1)) = true
          /\ isValidFilename (arg argv' (i * 2 + 1)) = true)).
Proof.
  intros [_ Hsame] Hi. unfold arg. split.
  - destruct (Hsame (Z.to_nat (i * 2))) as [H | [j [_ [Hj _]]]];
      [exact H | lia].
  - destruct (Hsame (Z.to_nat (i * 2 + 1)))
      as [H | [j [Hj1 [Hj [Hname [Hv Hv']]]]]]; [now left | right].
    replace (Z.to_nat (i * 2)) with (2 * j)%nat by lia.
    repeat split; assumption.
Qed.

Lemma option_loop_related (env : Env) (argv argv' : list string) (cnt : Z)
    (fuel : nat) :
  same_up_to_output_names argv argv' ->
  forall (i : Z) (v v' : locals) (trace : list io_event),
    1 <= i ->
    same_search_inputs v v' ->
    step_related (option_loop env argv cnt fuel i v trace)
                 (option_loop env argv' cnt fuel i v' trace).
Proof.
  intros Hsame.
  induction fuel as [|fuel IH]; intros i v v' trace Hi Hv;
    cbn [option_loop].
  - simpl. auto.
  - destruct (i <=? cnt); [| simpl; auto].
    destruct (same_args_at argv argv' i Hsame Hi) as [Hopt Hval].
    rewrite <- Hopt.
    pose proof (handle_option_related env (arg argv (i * 2))
                  (arg argv (i * 2 + 1)) (arg argv' (i * 2 + 1))
                  v v' trace Hv Hval) as Hstep.
    destruct (handle_option env (arg argv (i * 2)) (arg argv (i * 2 + 1))
                            v trace) as [w t|s t];
      destruct (handle_option env (arg argv (i * 2)) (arg argv' (i * 2 + 1))
                              v' trace) as [w' t'|s' t'];
      simpl in Hstep; try contradiction.
    + destruct Hstep as [Hw <-]. apply IH; [lia | assumption].
    + destruct Hstep as [<- <-]. simpl. auto.
Qed.

(** [main] behaves the same on two command lines that differ only in the
    valid names given for the log file and the result file. *)
Lemma main_ignores_output_names (env : Env) (argv argv' : list string) :
  same_up_to_output_names argv argv' ->
  main env argv' = main env argv.
Proof.
  intros Hsame. pose proof Hsame as [Hlen Hnth].
  unfold main.
  destruct argv as [|a0 rest]; destruct argv' as [|a0' rest'];
    try discriminate; [reflexivity |].
  assert (H0 : a0 = a0').
  { destruct (Hnth 0%nat) as [H | [j [_ [Hj _]]]]; [exact H | lia]. }
  subst a0'. rewrite <- Hlen.
  destruct (Z.of_nat (List.length (a0 :: rest)) =? 1); [reflexivity |].
  destruct (negb (Z.rem (Z.of_nat (List.length (a0 :: rest))) 2 =? 0)
            || (Z.of_nat (List.length (a0 :: rest)) >? 10));
    [reflexivity |].
  assert (H1 : arg (a0 :: rest') 1 = arg (a0 :: rest) 1).
  { unfold arg. destruct (Hnth (Z.to_nat 1)) as [H | [j [Hj1 [Hj _]]]];
      [now rewrite H | lia]. }
  rewrite H1.
  match goal with
  | |- context [option_loop ?e (a0 :: rest) ?c ?f ?i ?v ?t] =>
      pose proof (option_loop_related e (a0 :: rest) (a0 :: rest') c f
                    Hsame i v v t ltac:(lia)
                    (same_search_inputs_refl v)) as Hloop;
      destruct (option_loop e (a0 :: rest) c f i v t) as [w t1|s t1];
      destruct (option_loop e (a0 :: rest') c f i v t) as [w' t1'|s' t1']
  end; simpl in Hloop; try contradiction.
  - destruct Hloop as [(Hdir & Hcnt & _) <-]. now rewrite Hdir, Hcnt.
  - destruct Hloop as [<- <-]. reflexivity.
Qed.

(** The option loop only ever stops the program with a failure. *)
Lemma handle_option_stop_status (env : Env) (opt value : string)
    (v : locals) (t t' : list io_event) :
  handle_option env opt value v t <> Stop (Exit 0) t'.
Proof.
  unfold handle_option, fail.
  repeat match goal with
         | |- (if ?b then _ else _) <> _ => destruct b
         | |- match ?x with _ => _ end <> _ => destruct x
         end; discriminate.
Qed.

Lemma option_loop_stop_status (env : Env) (argv : list string) (cnt : Z)
    (fuel : nat) :
  forall (i : Z) (v : locals) (t t' : list io_event),
    option_loop env argv cnt fuel i v t <> Stop (Exit 0) t'.
Proof.
  induction fuel as [|fuel IH]; intros i v t t'; cbn [option_loop];
    [discriminate |].
  destruct (i <=? cnt); [| discriminate].
  destruct (handle_option env (arg argv (i * 2)) (arg argv (i * 2 + 1)) v t)
    as [w u|s u] eqn:Hh; [apply IH |].
  intros Heq. inversion Heq. subst.
  now apply handle_option_stop_status in Hh.
Qed.

(* ===================================================================== *)
(** ** What a successful run leaves behind *)
(* ===================================================================== *)

(** C10.  When [main] returns 0, the options were accepted and
    [searchDirectoryForString] returned a result pair, which is not part
    of what the run leaves behind: no operation of the run creates or
    writes a file (so neither the result file nor the log file) or prints
    on standard output, and the run is the same, operation for operation,
    on every command line that differs only in the valid file names given
    to [-l]/[--log_file] and [-r]/[--result_file]. *)
Theorem C10_main_persists_nothing
    (env : Env) (argv : list string) (eff : effects) :
  main env argv = (Exit 0, eff) ->
  no_persistence eff
  /\ (exists (vars : locals) (trace : list io_event)
             (results : list result_tuple * Z),
         option_loop env argv (Z.quot (Z.of_nat (List.length argv) - 2) 2)
           (Z.to_nat (Z.quot (Z.of_nat (List.length argv) - 2) 2)) 1
           {| directory_path := fs_cwd env;
              log_filename :=
                program_name_of (path_filename env (arg argv 0));
              result_filename :=
                program_name_of (path_filename env (arg argv 0));
              thread_cnt := 4;
              dir_opt := false;
              log_filename_opt := false;
              result_filename_opt := false;
              thread_cnt_opt := false |} [FsCurrentPath]
         = Continue vars trace
         /\ fst (searchDirectoryForString env (arg argv 1)
                   (directory_path vars) (thread_cnt vars))
            = Returned results)
  /\ forall argv' : list string,
       same_up_to_output_names argv argv' ->
       main env argv' = (Exit 0, eff).
Proof.
  intros Hmain. split; [| split].
  - pose proof (main_no_persistence env argv) as H.
    now rewrite Hmain in H.
  - unfold main in Hmain.
    destruct argv as [|a0 rest]; [discriminate |].
    destruct (Z.of_nat (List.length (a0 :: rest)) =? 1); [discriminate |].
    destruct (negb (Z.rem (Z.of_nat (List.length (a0 :: rest))) 2 =? 0)
              || (Z.of_nat (List.length (a0 :: rest)) >? 10));
      [discriminate |].
    change (arg (a0 :: rest) 0) with a0.
    destruct (option_loop env (a0 :: rest) _ _ 1 _ [FsCurrentPath])
      as [vars trace|s trace] eqn:Hloop.
    + exists vars, trace.
      destruct (searchDirectoryForString env (arg (a0 :: rest) 1)
                  (directory_path vars) (thread_cnt vars))
        as [[results| |] e]; try discriminate.
      exists results. split; reflexivity.
    + inversion Hmain. subst s.
      exfalso. eapply option_loop_stop_status; eassumption.
  - intros argv' Hsame.
    rewrite (main_ignores_output_names env argv argv' Hsame). exact Hmain.
Qed.

Lemma C10_main_persists_nothing_witness :
  main Example.env
       ["specific_grep"; "foo"; "-t"; "2"; "-r"; "other name.txt"]
  = (Exit 0,
     {| caller_thread := [FsCurrentPath; DirectoryWalk "root"];
        worker_threads :=
          [[IfstreamOpen "root/a.txt" true; IfstreamClose "root/a.txt"];
           [IfstreamOpen "root/locked.txt" false;
            Cerr (open_error_message "root/locked.txt");
            IfstreamOpen "root/b.txt" true; IfstreamClose "root/b.txt"]] |}).
Proof.
  apply (proj2 (proj2
    (C10_main_persists_nothing Example.env
       ["specific_grep"; "foo"; "-t"; "2"; "-r"; "results.txt"] _
       ltac:(vm_compute; reflexivity)))).
  split; [reflexivity |].
  intros k.
  do 5 (destruct k as [|k]; [left; reflexivity |]).
  destruct k as [|k].
  - right. exists 2%nat. repeat split; try reflexivity. lia.
  - left. destruct k; reflexivity.
Defined.

(* ===================================================================== *)
(** ** More on [find] and [getline] *)
(* ===================================================================== *)

Lemma string_length_app (a b : string) :
  String.length (a ++ b) = (String.length a + String.length b)%nat.
Proof. induction a as [|c a IH]; simpl; [reflexivity | now rewrite IH]. Qed.

Lemma occurs_at_zero (pat line : string) :
  occurs_at pat line 0 <-> prefix pat line = true.
Proof.
  unfold occurs_at. rewrite prefix_iff. split.
  - intros [pre [post [H Hlen]]]. destruct pre; [| discriminate].
    now exists post.
  - intros [t Ht]. now exists EmptyString, t.
Qed.

Lemma occurs_at_succ (pat : string) (c : ascii) (line : string) (n : nat) :
  occurs_at pat (String c line) (S n) <-> occurs_at pat line n.
Proof.
  unfold occurs_at. split.
  - intros [pre [post [H Hlen]]]. destruct pre as [|d pre]; [discriminate |].
    simpl in H, Hlen. inversion H. exists pre, post. split; [reflexivity | lia].
  - intros [pre [post [H Hlen]]]. exists (String c pre), post.
    simpl. now rewrite H, Hlen.
Qed.

Lemma find_from_first (line pat : string) :
  forall (pos n : nat),
    find_from pos line pat = Some n ->
    exists k : nat,
      n = (pos + k)%nat /\ occurs_at pat line k
      /\ forall k' : nat, occurs_at pat line k' -> (k <= k')%nat.
Proof.
  induction line as [|c line IH]; intros pos n; rewrite find_from_unfold.
  - destruct (prefix pat EmptyString) eqn:Hp; [| discriminate].
    intros H. inversion H. subst n. exists 0%nat.
    repeat split; [lia | now apply occurs_at_zero | intros; lia].
  - destruct (prefix pat (String c line)) eqn:Hp.
    + intros H. inversion H. subst n. exists 0%nat.
      repeat split; [lia | now apply occurs_at_zero | intros; lia].
    + intros H. apply IH in H. destruct H as [k [-> [Hocc Hmin]]].
      exists (S k). repeat split; [lia | now apply occurs_at_succ |].
      intros [|k'] Hk'.
      * apply occurs_at_zero in Hk'. congruence.
      * apply occurs_at_succ in Hk'. apply Hmin in Hk'. lia.
Qed.

(** [line.find(pat)] is the index of the first occurrence: [pat] occurs
    at the index returned, which is inside the line, and at no smaller
    index. *)
Theorem find_first_occurrence (line pat : string) (n : nat) :
  find line pat = Some n ->
  occurs_at pat line n
  /\ (n + String.length pat <= String.length line)%nat
  /\ forall k : nat, occurs_at pat line k -> (n <= k)%nat.
Proof.
  intros H. apply find_from_first in H.
  destruct H as [k [-> [Hocc Hmin]]]. simpl.
  repeat split; try assumption.
  destruct Hocc as [pre [post [-> Hlen]]].
  rewrite !string_length_app. lia.
Qed.

Lemma find_first_occurrence_witness :
  occurs_at "ba" "bar baz" 0
  /\ forall k : nat, occurs_at "ba" "bar baz" k -> (0 <= k)%nat.
Proof.
  destruct (find_first_occurrence "bar baz" "ba" 0 eq_refl) as [H [_ Hmin]].
  split; assumption.
Defined.

(** An occurrence anywhere makes [find] return the index of the first
    one. *)
Theorem find_some_when_occurs (line pat : string) (k : nat) :
  occurs_at pat line k ->
  exists n : nat, find line pat = Some n /\ (n <= k)%nat.
Proof.
  intros Hocc.
  assert (Hsub : substring_of pat line).
  { destruct Hocc as [pre [post [H _]]]. now exists pre, post. }
  apply (find_from_some_iff 0) in Hsub. destruct Hsub as [n Hn].
  exists n. split; [exact Hn |].
  apply find_from_first in Hn. destruct Hn as [j [-> [_ Hmin]]].
  simpl. now apply Hmin.
Qed.

Lemma find_some_when_occurs_witness :
  exists n : nat, find "nothing foo foo" "foo" = Some n /\ (n <= 12)%nat.
Proof.
  apply (find_some_when_occurs "nothing foo foo" "foo" 12).
  exists "nothing foo ", EmptyString. split; reflexivity.
Defined.

Lemma getline_terminated (l rest : string) :
  no_newline l = true ->
  getline (l ++ String newline rest) = Some (l, rest).
Proof.
  induction l as [|c l IH]; simpl; intros H.
  - reflexivity.
  - apply andb_true_iff in H. destruct H as [Hc Hl].
    apply negb_true_iff in Hc. rewrite Hc, IH by assumption. reflexivity.
Qed.

Lemma getline_last (l : string) :
  no_newline l = true -> l <> EmptyString ->
  getline l = Some (l, EmptyString).
Proof.
  induction l as [|c l IH]; simpl; intros H Hne.
  - congruence.
  - apply andb_true_iff in H. destruct H as [Hc Hl].
    apply negb_true_iff in Hc. rewrite Hc.
    destruct l as [|d l]; [reflexivity |].
    rewrite IH by (assumption || discriminate). reflexivity.
Qed.

Lemma file_lines_terminated (lines : list string) (last : string) :
  Forall (fun l => no_newline l = true) lines ->
  no_newline last = true ->
  file_lines (terminated lines ++ last)
  = lines ++ (if String.eqb last EmptyString then [] else [last]).
Proof.
  intros Hlines Hlast.
  induction Hlines as [|l lines Hl _ IH]; simpl.
  - rewrite file_lines_getline.
    destruct last as [|c last]; [reflexivity |].
    rewrite getline_last by (assumption || discriminate).
    reflexivity.
  - rewrite file_lines_getline.
    rewrite string_app_assoc. simpl.
    rewrite getline_terminated by assumption.
    now rewrite IH.
Qed.

Lemma getline_no_newline (input line rest : string) :
  getline input = Some (line, rest) -> no_newline line = true.
Proof.
  revert line rest. induction input as [|c input IH]; intros line rest; simpl.
  - discriminate.
  - destruct (Ascii.eqb c newline) eqn:Hc.
    + intros H. inversion H. reflexivity.
    + destruct (getline input) as [[l r]|] eqn:Hg; intros H; inversion H;
        subst; simpl; rewrite Hc; simpl; [eapply IH; reflexivity | reflexivity].
Qed.

Lemma file_lines_bound (n : nat) :
  forall input : string,
    (String.length input <= n)%nat ->
    Forall (fun l => no_newline l = true) (file_lines input)
    /\ (List.length (file_lines input) <= String.length input)%nat.
Proof.
  induction n as [|n IH]; intros input Hlen; rewrite file_lines_getline.
  - destruct input; [simpl; auto | simpl in Hlen; lia].
  - destruct (getline input) as [[line rest]|] eqn:Hg.
    + pose proof (getline_consumes _ _ _ Hg) as Hlt.
      destruct (IH rest ltac:(lia)) as [Hall Hcount].
      split.
      * constructor; [eapply getline_no_newline; eassumption | assumption].
      * simpl. lia.
    + split; [constructor | simpl; lia].
Qed.


(* ===================================================================== *)
(** ** More on the line scanner *)
(* ===================================================================== *)

(** A worker never returns an empty list, tags every record with its own
    thread identity, and every record that is not the placeholder names a
    file of the partition that could be opened and carries a line, free
    of terminators, in which the search string occurs. *)
Theorem worker_records_sound
    (env : Env) (tid : thread_id) (S : string) (files : list string) :
  fst (searchFilesForString env tid S files) <> []
  /\ forall r : result_tuple,
       In r (fst (searchFilesForString env tid S files)) ->
       tuple_thread r = tid
       /\ (r = (tid, EmptyString, 0, EmptyString)
           \/ (In (tuple_path r) files
               /\ unreadable env (tuple_path r) = false
               /\ substring_of S (tuple_line r)
               /\ no_newline (tuple_line r) = true)).
Proof.
  split.
  - rewrite searchFilesForString_records.
    destruct (flat_map (file_records env tid S) files); discriminate.
  - intros r Hin. apply in_searchFilesForString in Hin.
    destruct Hin as [[-> _] | Hin]; [split; [reflexivity | now left] |].
    apply in_flat_map in Hin. destruct Hin as [q [Hq Hr]].
    unfold file_records in Hr.
    destruct (fs_open env q) as [content|] eqn:Hopen; [| contradiction].
    apply in_file_matches in Hr. destruct Hr as [j [l [Hj [Hf ->]]]].
    simpl. split; [reflexivity | right].
    repeat split; try assumption.
    + unfold unreadable. now rewrite Hopen.
    + now apply found_iff.
    + pose proof (proj1 (file_lines_bound _ content (le_n _))) as Hall.
      rewrite Forall_forall in Hall. apply Hall.
      eapply nth_error_In. eassumption.
Qed.

Lemma handle_after_file_events (env : Env) (p : string)
    (rest : list io_event) :
  handle_after None (file_events env p ++ rest) = handle_after None rest.
Proof.
  unfold file_events. destruct (fs_open env p); simpl.
  - now rewrite String.eqb_refl.
  - reflexivity.
Qed.

(** A worker holds at most one file at a time: it never opens a file
    while another one is open, closes only the file it holds, and holds
    none when it returns. *)
Theorem worker_closes_files
    (env : Env) (tid : thread_id) (S : string) (files : list string) :
  handle_after None (snd (searchFilesForString env tid S files))
  = Some None.
Proof.
  rewrite searchFilesForString_trace.
  induction files as [|p files IH]; simpl; [reflexivity |].
  now rewrite handle_after_file_events.
Qed.

(** A worker tries to open every file of its partition exactly once, in
    the order of the partition, and writes one error line for each file
    it could not open, in the same order, and nothing else. *)
Theorem worker_opens_each_file_once
    (env : Env) (tid : thread_id) (S : string) (files : list string) :
  opened_paths (snd (searchFilesForString env tid S files)) = files
  /\ error_lines (snd (searchFilesForString env tid S files))
     = map open_error_message (filter (unreadable env) files).
Proof.
  rewrite searchFilesForString_trace. unfold opened_paths, error_lines.
  induction files as [|p files [IH1 IH2]]; simpl; [split; reflexivity |].
  rewrite !flat_map_app, IH1, IH2.
  unfold file_events, unreadable.
  destruct (fs_open env p); split; reflexivity.
Qed.

(* ===================================================================== *)
(** ** More on the coordinator *)
(* ===================================================================== *)

Lemma subvector_incl (v slice : list string) (a b : Z) :
  subvector v a b = Some slice -> incl slice v.
Proof.
  unfold subvector.
  destruct ((0 <=? a) && (a <=? b) && (b <=? Z.of_nat (List.length v)));
    [| discriminate].
  intros H. inversion H. subst slice. intros p Hp.
  rewrite <- (firstn_skipn (Z.to_nat a) v). apply in_or_app. right.
  rewrite <- (firstn_skipn (Z.to_nat (b - a)) (skipn (Z.to_nat a) v)).
  apply in_or_app. now left.
Qed.

Lemma launch_opens_within (env : Env) (S : string) (files : list string)
    (W fpt : Z) (fuel : nat) :
  forall (i : Z) (futures futures' : list future) (ending : outcome unit),
    launch env S files W fpt fuel i futures = (futures', ending) ->
    Forall (fun f => incl (opened_paths (snd f)) files) futures ->
    Forall (fun f => incl (opened_paths (snd f)) files) futures'.
Proof.
  induction fuel as [|fuel IH]; intros i futures futures' ending H Hall.
  - simpl in H. inversion H. now subst.
  - cbn [launch] in H. destruct (i <? W).
    + destruct (subvector files (start_index fpt i) (end_index files W fpt i))
        as [slice|] eqn:Hs; [| inversion H; now subst].
      destruct (async_starts env i); [| inversion H; now subst].
      apply IH in H; [exact H |].
      apply Forall_app. split; [exact Hall |].
      constructor; [| constructor].
      rewrite searchFilesForString_trace, opened_paths_file_events.
      eapply subvector_incl. eassumption.
    + inversion H. now subst.
Qed.

Lemma push_regular_files_sound (env : Env) (entries : list string) :
  forall (acc files : list string) (p : string),
    push_regular_files env entries acc = Returned files ->
    In p files ->
    In p acc \/ (In p entries /\ fs_status env p = Some RegularFile).
Proof.
  induction entries as [|e entries IH]; intros acc files p H Hp; simpl in H.
  - inversion H. subst. now left.
  - unfold is_regular_file in H.
    destruct (fs_status env e) as [[| |]|] eqn:He.
    + destruct (IH _ _ _ H Hp) as [Hacc | [Hin Hreg]].
      * apply in_app_or in Hacc. destruct Hacc as [Hacc | [<- | []]];
          [now left | right; split; [now left | assumption]].
      * right. split; [now right | assumption].
    + destruct (IH _ _ _ H Hp) as [Hacc | [Hin Hreg]];
        [now left | right; split; [now right | assumption]].
    + destruct (IH _ _ _ H Hp) as [Hacc | [Hin Hreg]];
        [now left | right; split; [now right | assumption]].
    + destruct (fs_status_error env e); [discriminate |].
      destruct (IH _ _ _ H Hp) as [Hacc | [Hin Hreg]];
        [now left | right; split; [now right | assumption]].
Qed.

Lemma in_opened_paths (t : list io_event) (p : string) (ok : bool) :
  In (IfstreamOpen p ok) t -> In p (opened_paths t).
Proof.
  intros H. unfold opened_paths. apply in_flat_map.
  exists (IfstreamOpen p ok). split; [assumption | now left].
Qed.

(** Whatever the worker count, the only paths any worker tries to open
    are entries the directory walk of the root yielded and whose status
    is that of a regular file: directories and other kinds of files are
    never opened. *)
Theorem only_regular_files_opened
    (env : Env) (S root : string) (W : Z)
    (t : list io_event) (p : string) (ok : bool) :
  In t (worker_threads (snd (searchDirectoryForString env S root W))) ->
  In (IfstreamOpen p ok) t ->
  fs_status env p = Some RegularFile
  /\ exists entries, fs_walk env root = Some entries /\ In p entries.
Proof.
  unfold searchDirectoryForString.
  destruct (enumerate_files env root) as [files| |] eqn:Henum;
    try (simpl; contradiction).
  destruct (to_size_t W =? 0); [simpl; contradiction |].
  destruct (launch env S files W
              (wrap_int (size files / to_size_t W)) (Z.to_nat W) 0 [])
    as [futures ending] eqn:Hl.
  intros Ht Hp.
  assert (Ht' : In t (map snd futures)) by (destruct ending; exact Ht).
  clear Ht.
  apply launch_opens_within in Hl; [| constructor].
  apply in_map_iff in Ht'. destruct Ht' as [f [<- Hf]].
  rewrite Forall_forall in Hl. specialize (Hl f Hf).
  apply in_opened_paths in Hp. apply Hl in Hp.
  unfold enumerate_files in Henum.
  destruct (fs_status env root) as [[| |]|]; try discriminate.
  destruct (fs_walk env root) as [entries|] eqn:Hwalk; [| discriminate].
  destruct (push_regular_files_sound env entries [] files p Henum Hp)
    as [[] | [Hin Hreg]].
  split; [exact Hreg |]. exists entries. now split.
Qed.

Lemma only_regular_files_opened_witness :
  fs_status Example.env "root/locked.txt" = Some RegularFile
  /\ exists entries,
       fs_walk Example.env "root" = Some entries
       /\ In "root/locked.txt" entries.
Proof.
  apply (only_regular_files_opened Example.env "foo" "root" 1
           [IfstreamOpen "root/a.txt" true; IfstreamClose "root/a.txt";
            IfstreamOpen "root/locked.txt" false;
            Cerr (open_error_message "root/locked.txt");
            IfstreamOpen "root/b.txt" true; IfstreamClose "root/b.txt"]
           "root/locked.txt" false).
  - vm_compute. left. reflexivity.
  - simpl. tauto.
Defined.

Lemma worker_results_traces (env : Env) (S : string)
    (slices : list (list string)) :
  forall i : Z,
    List.concat (map snd (worker_results env S i slices))
    = flat_map (file_events env) (List.concat slices).
Proof.
  induction slices as [|slice slices IH]; intros i; simpl; [reflexivity |].
  now rewrite searchFilesForString_trace, IH, flat_map_app.
Qed.

(** For a worker count from 1 on for which the threads can be started,
    exactly that many workers run and their operations, taken worker
    after worker, are those of one thread going through the enumerated
    files in order: every enumerated file is opened exactly once, by
    exactly one worker. *)
Theorem workers_cover_files_once
    (env : Env) (S root : string) (W : Z) (files : list string) :
  enumerate_files env root = Returned files ->
  1 <= W <= INT_MAX ->
  size files <= INT_MAX ->
  (forall i, 0 <= i < W -> async_starts env i = true) ->
  let eff := snd (searchDirectoryForString env S root W) in
  List.concat (worker_threads eff) = flat_map (file_events env) files
  /\ opened_paths (List.concat (worker_threads eff)) = files
  /\ Z.of_nat (List.length (worker_threads eff)) = W.
Proof.
  intros Henum HW HL Hstart eff. subst eff.
  rewrite (searchDirectoryForString_spec env S root W files) by assumption.
  cbn [snd worker_threads].
  assert (Hcat : List.concat
                   (chunks (Z.to_nat (size files / W)) (Z.to_nat W) files)
                 = files).
  { destruct (Z.to_nat W) as [|n] eqn:E; [lia |]. apply chunks_concat. }
  rewrite worker_results_traces, Hcat.
  repeat split.
  - clear. unfold opened_paths.
    induction files as [|p files IH]; simpl; [reflexivity |].
    rewrite flat_map_app, IH. unfold file_events.
    destruct (fs_open env p); reflexivity.
  - rewrite length_map, worker_results_length, chunks_length. lia.
Qed.

Lemma workers_cover_files_once_witness :
  opened_paths
    (List.concat
       (worker_threads
          (snd (searchDirectoryForString Example.env "foo" "root" 2))))
  = ["root/a.txt"; "root/locked.txt"; "root/b.txt"].
Proof.
  apply (workers_cover_files_once Example.env "foo" "root" 2
           ["root/a.txt"; "root/locked.txt"; "root/b.txt"]
           eq_refl ltac:(unfold INT_MAX; lia)
           ltac:(vm_compute; discriminate) ltac:(reflexivity)).
Defined.

Lemma chunks_zero {A : Type} (n : nat) (l : list A) :
  chunks 0 (S n) l = repeat [] n ++ [l].
Proof.
  induction n as [|n IH]; [reflexivity |].
  rewrite chunks_succ. simpl firstn. simpl skipn. rewrite IH. reflexivity.
Qed.

Lemma worker_results_idle (env : Env) (S : string) (files : list string)
    (n : nat) :
  forall i : Z,
    List.concat (map fst (worker_results env S i (repeat [] n ++ [files])))
    = map (fun j => (async_thread env (i + Z.of_nat j),
                     EmptyString, 0, EmptyString)) (seq 0 n)
      ++ fst (searchFilesForString env (async_thread env (i + Z.of_nat n))
                                   S files).
Proof.
  induction n as [|n IH]; intros i.
  - simpl. now rewrite app_nil_r, Z.add_0_r.
  - cbn [repeat app worker_results map List.concat seq].
    rewrite IH. cbn [fst searchFilesForString scan_files app].
    rewrite Z.add_0_r. unfold placeholder. cbn [app]. f_equal.
    replace (i + 1 + Z.of_nat n) with (i + Z.of_nat (Datatypes.S n)) by lia.
    f_equal. rewrite <- seq_shift, map_map.
    apply map_ext. intros j.
    replace (i + 1 + Z.of_nat j) with (i + Z.of_nat (Datatypes.S j)) by lia.
    reflexivity.
Qed.

(** More workers than files, all of whose threads can be started: the
    quotient [files_per_thread] is 0, so every worker but the last is
    given nothing and returns its placeholder, and the last worker scans
    all the files alone.  In an empty directory every worker returns its
    placeholder. *)
Theorem more_workers_than_files
    (env : Env) (S root : string) (W : Z) (files : list string) :
  enumerate_files env root = Returned files ->
  size files < W <= INT_MAX ->
  (forall i, 0 <= i < W -> async_starts env i = true) ->
  fst (searchDirectoryForString env S root W)
  = Returned
      (map (fun j => (async_thread env (Z.of_nat j),
                      EmptyString, 0, EmptyString))
           (seq 0 (Z.to_nat W - 1))
       ++ fst (searchFilesForString env (async_thread env (W - 1)) S files),
       size files).
Proof.
  intros Henum HW Hstart.
  assert (H0 : 0 <= size files) by (unfold size; lia).
  rewrite (searchDirectoryForString_spec env S root W files)
    by (assumption || lia).
  cbn [fst]. rewrite Z.div_small by lia. change (Z.to_nat 0) with 0%nat.
  destruct (Z.to_nat W) as [|n] eqn:E; [lia |].
  rewrite chunks_zero, worker_results_idle.
  replace (Datatypes.S n - 1)%nat with n by lia.
  replace (0 + Z.of_nat n) with (W - 1) by lia.
  reflexivity.
Qed.

Lemma more_workers_than_files_witness :
  fst (searchDirectoryForString Example.two_files "foo" "root" 4)
  = Returned
      ([(100%nat, EmptyString, 0, EmptyString);
        (101%nat, EmptyString, 0, EmptyString);
        (102%nat, EmptyString, 0, EmptyString);
        (103%nat, "root/a.txt", 1, "foo");
        (103%nat, "root/b.txt", 2, "foo again")], 2).
Proof.
  apply (more_workers_than_files Example.two_files "foo" "root" 4
           ["root/a.txt"; "root/b.txt"] eq_refl).
  - vm_compute. split; [reflexivity | discriminate].
  - reflexivity.
Defined.




Lemma nonpositive_thread_count_witness :
  searchDirectoryForString Example.env "foo" "root" (-7)
  = (Returned ([], 3),
     {| caller_thread := [DirectoryWalk "root"]; worker_threads := [] |}).
Proof.
  apply (nonpositive_thread_count Example.env "foo" "root" (-7)
           ["root/a.txt"; "root/locked.txt"; "root/b.txt"] eq_refl).
  vm_compute. split; discriminate.
Defined.

Lemma file_matches_untagged (tid : thread_id) (S p : string)
    (lines : list string) :
  forall k : nat,
    (1 <= k)%nat ->
    Z.of_nat (k + List.length lines) <= INT_MAX + 1 ->
    map untag (filter is_match (file_matches tid S p k lines))
    = map (fun kl => (p, Z.of_nat (fst kl), snd kl))
          (filter (fun kl => found (snd kl) S) (numbered_lines k lines)).
Proof.
  unfold numbered_lines.
  induction lines as [|l lines IH]; intros k Hk Hmax; [reflexivity |].
  cbn [file_matches List.length seq combine filter].
  cbn [List.length] in Hmax.
  rewrite filter_app, map_app, IH by lia.
  cbn [snd]. destruct (found l S); [| reflexivity].
  assert (Hw : wrap_int (Z.of_nat k) = Z.of_nat k).
  { apply wrap_int_small.
    unfold in_int, INT_MIN, INT_MAX in *. lia. }
  cbn [filter]. unfold is_match at 1. cbn [tuple_line_number].
  rewrite Hw.
  replace (Z.of_nat k =? 0) with false by (symmetry; apply Z.eqb_neq; lia).
  reflexivity.
Qed.

Lemma worker_untagged (env : Env) (tid : thread_id) (S : string)
    (slice : list string) :
  (forall p content,
      In p slice -> fs_open env p = Some content ->
      Z.of_nat (List.length (file_lines content)) <= INT_MAX) ->
  map untag (filter is_match (fst (searchFilesForString env tid S slice)))
  = sequential_matches env S slice.
Proof.
  intros Hrange.
  assert (G : map untag
                (filter is_match (flat_map (file_records env tid S) slice))
              = sequential_matches env S slice).
  { unfold sequential_matches.
    induction slice as [|p slice IH]; [reflexivity |].
    cbn [flat_map]. rewrite filter_app, map_app.
    rewrite IH by (intros q c Hq; apply Hrange; now right).
    f_equal. unfold file_records.
    destruct (fs_open env p) as [content|] eqn:Hopen; [| reflexivity].
    apply file_matches_untagged; [lia |].
    specialize (Hrange p content (or_introl eq_refl) Hopen). lia. }
  rewrite searchFilesForString_records.
  destruct (flat_map (file_records env tid S) slice) as [|r rs] eqn:E.
  - rewrite <- G. reflexivity.
  - exact G.
Qed.

Lemma sequential_matches_app (env : Env) (S : string)
    (a b : list string) :
  sequential_matches env S (a ++ b)
  = sequential_matches env S a ++ sequential_matches env S b.
Proof. unfold sequential_matches. apply flat_map_app. Qed.

Lemma worker_results_untagged (env : Env) (S : string)
    (slices : list (list string)) :
  (forall p content,
      In p (List.concat slices) -> fs_open env p = Some content ->
      Z.of_nat (List.length (file_lines content)) <= INT_MAX) ->
  forall i : Z,
    map untag
        (filter is_match
                (List.concat (map fst (worker_results env S i slices))))
    = sequential_matches env S (List.concat slices).
Proof.
  induction slices as [|slice slices IH]; intros Hrange i; [reflexivity |].
  cbn [worker_results map List.concat].
  rewrite filter_app, map_app, sequential_matches_app.
  rewrite worker_untagged
    by (intros p c Hp; apply Hrange; simpl; apply in_or_app; now left).
  rewrite IH
    by (intros p c Hp; apply Hrange; simpl; apply in_or_app; now right).
  reflexivity.
Qed.

(** The matches do not depend on the worker count.  For every worker
    count from 1 on for which the threads can be started, the call
    returns and the records returned, placeholders and thread
    identities left aside, are what a single thread reading the
    enumerated files one after the other finds, in the same order (files
    in enumeration order, lines top to bottom).  Line counts, file count
    and worker count are assumed to fit the [int] variables. *)
Theorem matches_independent_of_worker_count
    (env : Env) (S root : string) (W : Z) (files : list string) :
  enumerate_files env root = Returned files ->
  1 <= W <= INT_MAX ->
  size files <= INT_MAX ->
  (forall i, 0 <= i < W -> async_starts env i = true) ->
  (forall p content,
      In p files -> fs_open env p = Some content ->
      Z.of_nat (List.length (file_lines content)) <= INT_MAX) ->
  exists records : list result_tuple,
    fst (searchDirectoryForString env S root W)
    = Returned (records, size files)
    /\ map untag (filter is_match records)
       = sequential_matches env S files.
Proof.
  intros Henum HW HL Hstart Hrange.
  rewrite (searchDirectoryForString_spec env S root W files) by assumption.
  cbn [fst]. eexists. split; [reflexivity |].
  assert (Hcat : List.concat
                   (chunks (Z.to_nat (size files / W)) (Z.to_nat W) files)
                 = files).
  { destruct (Z.to_nat W) as [|n] eqn:E; [lia |]. apply chunks_concat. }
  rewrite worker_results_untagged; rewrite Hcat; [reflexivity | assumption].
Qed.

Lemma matches_independent_of_worker_count_witness :
  exists records : list result_tuple,
    fst (searchDirectoryForString Example.env "foo" "root" 3)
    = Returned (records, 3)
    /\ map untag (filter is_match records)
       = [("root/a.txt", 1, "foo"); ("root/b.txt", 2, "foo again")].
Proof.
  apply (matches_independent_of_worker_count Example.env "foo" "root" 3
           ["root/a.txt"; "root/locked.txt"; "root/b.txt"] eq_refl).
  - unfold INT_MAX. lia.
  - vm_compute. discriminate.
  - reflexivity.
  - intros p content [<- | [<- | [<- | []]]] Hopen;
      vm_compute in Hopen; inversion Hopen; vm_compute; discriminate.
Defined.

(* ===================================================================== *)
(** ** More on the driver: [std::stoi] *)
(* ===================================================================== *)

Lemma read_digits_stop (rest : string) (acc : Z) (seen : bool) :
  stops_number rest = true -> read_digits rest acc seen = (acc, seen).
Proof.
  destruct rest as [|c rest]; simpl; [reflexivity |].
  intros H. apply negb_true_iff in H. now rewrite H.
Qed.

Lemma read_digits_acc (d : Decimal.uint) :
  forall (acc : Z) (rest : string),
    0 < acc ->
    read_digits (DecimalString.NilEmpty.string_of_uint d ++ rest) acc true
    = read_digits rest (Zpos (Pos.of_uint_acc d (Z.to_pos acc))) true.
Proof.
  induction d; intros acc rest Hacc;
    cbn [DecimalString.NilEmpty.string_of_uint append Pos.of_uint_acc].
  1: now rewrite Z2Pos.id by lia.
  all: cbn [read_digits];
    match goal with
    | |- context [is_digit ?c] => change (is_digit c) with true
    end;
    cbv iota;
    match goal with
    | |- context [Z.of_nat (nat_of_ascii ?c) - 48] =>
        let v := eval vm_compute in (Z.of_nat (nat_of_ascii c) - 48) in
        change (Z.of_nat (nat_of_ascii c) - 48) with v
    end;
    rewrite IHd by lia;
    do 3 f_equal;
    apply Pos2Z.inj; rewrite Z2Pos.id by lia;
    rewrite ?Pos2Z.inj_add, ?Pos2Z.inj_mul, Z2Pos.id by lia;
    lia.
Qed.

Lemma read_digits_uint (d : Decimal.uint) :
  forall (rest : string) (seen : bool),
    d <> Decimal.Nil ->
    read_digits (DecimalString.NilEmpty.string_of_uint d ++ rest) 0 seen
    = read_digits rest (Z.of_N (Pos.of_uint d)) true.
Proof.
  induction d; intros rest seen Hd; [congruence | ..];
    cbn [DecimalString.NilEmpty.string_of_uint append read_digits];
    match goal with
    | |- context [is_digit ?c] => change (is_digit c) with true
    end;
    cbv iota;
    match goal with
    | |- context [Z.of_nat (nat_of_ascii ?c) - 48] =>
        let v := eval vm_compute in (Z.of_nat (nat_of_ascii c) - 48) in
        change (Z.of_nat (nat_of_ascii c) - 48) with v
    end;
    cbn [Z.mul Z.add Pos.of_uint];
    [ (* a leading zero *)
      destruct d; [reflexivity | ..]; now apply IHd
    | now rewrite read_digits_acc by lia .. ].
Qed.

Lemma skip_spaces_app (ws : string) (c : ascii) (s : string) :
  all_chars isspace ws = true ->
  isspace c = false ->
  skip_spaces (ws ++ String c s) = String c s.
Proof.
  intros Hws Hc. induction ws as [|w ws IH]; simpl.
  - now rewrite Hc.
  - simpl in Hws. apply andb_true_iff in Hws. destruct Hws as [Hw Hws].
    rewrite Hw. now apply IH.
Qed.

Lemma stoi_unsigned (ws : string) (d : Decimal.uint) (rest : string) :
  all_chars isspace ws = true ->
  d <> Decimal.Nil ->
  stops_number rest = true ->
  stoi (ws ++ DecimalString.NilEmpty.string_of_uint d ++ rest)
  = converted (Z.of_N (Pos.of_uint d)).
Proof.
  intros Hws Hd Hrest.
  pose proof (read_digits_uint d rest false Hd) as Hread.
  rewrite (read_digits_stop rest) in Hread by assumption.
  unfold stoi, converted.
  destruct d; [congruence | ..];
    cbn [DecimalString.NilEmpty.string_of_uint append] in *;
    rewrite skip_spaces_app by (assumption || reflexivity);
    cbv iota beta; rewrite Hread; reflexivity.
Qed.

Lemma stoi_negative (ws : string) (d : Decimal.uint) (rest : string) :
  all_chars isspace ws = true ->
  d <> Decimal.Nil ->
  stops_number rest = true ->
  stoi (ws ++ String "-" (DecimalString.NilEmpty.string_of_uint d ++ rest))
  = converted (- Z.of_N (Pos.of_uint d)).
Proof.
  intros Hws Hd Hrest.
  pose proof (read_digits_uint d rest false Hd) as Hread.
  rewrite (read_digits_stop rest) in Hread by assumption.
  unfold stoi, converted.
  rewrite skip_spaces_app by (assumption || reflexivity).
  cbv iota beta. rewrite Hread. reflexivity.
Qed.

Lemma stoi_reads_decimal (ws : string) (z : Z) (rest : string) :
  all_chars isspace ws = true ->
  stops_number rest = true ->
  stoi (ws ++ decimal z ++ rest) = converted z.
Proof.
  intros Hws Hrest. unfold decimal.
  rewrite <- (DecimalZ.of_to z) at 2.
  destruct z as [|p|p]; cbn [Z.to_int DecimalString.NilEmpty.string_of_int
                             Z.of_int Z.of_uint].
  - apply stoi_unsigned; try assumption. discriminate.
  - apply stoi_unsigned; try assumption.
    apply DecimalPos.Unsigned.to_uint_nonnil.
  - cbn [append]. apply stoi_negative; try assumption.
    apply DecimalPos.Unsigned.to_uint_nonnil.
Qed.

(** [std::stoi] reads back the decimal notation of every integer that
    fits an [int], with white space before it and anything that does not
    start with a digit after it, and throws [std::out_of_range] for the
    notation of every other integer. *)
Theorem stoi_decimal (ws : string) (z : Z) (rest : string) :
  all_chars isspace ws = true ->
  stops_number rest = true ->
  stoi (ws ++ decimal z ++ rest)
  = if (INT_MIN <=? z) && (z <=? INT_MAX) then Returned z
    else Threw out_of_range.
Proof. apply stoi_reads_decimal. Qed.

Lemma stoi_decimal_witness :
  stoi ("  " ++ decimal (-12) ++ " threads") = Returned (-12)
  /\ stoi (EmptyString ++ decimal 2147483648 ++ EmptyString)
     = Threw out_of_range.
Proof.
  split.
  - apply (stoi_decimal "  " (-12) " threads"); reflexivity.
  - apply (stoi_decimal EmptyString 2147483648 EmptyString); reflexivity.
Defined.

Lemma read_digits_seen (s : string) :
  forall (acc : Z) (seen : bool),
    snd (read_digits s acc seen) = true ->
    seen = true \/ exists c rest, s = String c rest /\ is_digit c = true.
Proof.
  destruct s as [|c rest]; intros acc seen; simpl.
  - now left.
  - destruct (is_digit c) eqn:Hc; [right; eauto | now left].
Qed.

(** What [std::stoi] returns is an [int], and it returns only when the
    text, white space and one sign skipped, starts with a digit. *)
Theorem stoi_returns_int (str : string) (n : Z) :
  stoi str = Returned n ->
  INT_MIN <= n <= INT_MAX
  /\ exists (c : ascii) (rest : string),
       is_digit c = true
       /\ (skip_spaces str = String c rest
           \/ skip_spaces str = String "-" (String c rest)
           \/ skip_spaces str = String "+" (String c rest)).
Proof.
  unfold stoi.
  set (s := skip_spaces str).
  assert (Hcases :
            (exists r, s = String "-" r) \/ (exists r, s = String "+" r)
            \/ (forall r, s <> String "-" r) /\ (forall r, s <> String "+" r)).
  { destruct s as [|c r]; [right; right; split; discriminate |].
    destruct (Ascii.eqb_spec c "-") as [-> | Hm]; [left; eauto |].
    destruct (Ascii.eqb_spec c "+") as [-> | Hp]; [right; left; eauto |].
    right; right; split; intros r' H; inversion H; congruence. }
  assert (Hgen : forall (negative : bool) (t : string),
             match read_digits t 0 false with
             | (_, false) => Threw invalid_argument
             | (v, true) =>
                 let v := if negative then - v else v in
                 if (INT_MIN <=? v) && (v <=? INT_MAX) then Returned v
                 else Threw out_of_range
             end = Returned n ->
             INT_MIN <= n <= INT_MAX
             /\ exists c rest, t = String c rest /\ is_digit c = true).
  { intros negative t.
    destruct (read_digits t 0 false) as [v seen] eqn:Hr.
    destruct seen; [| discriminate]. cbv zeta.
    destruct ((INT_MIN <=? (if negative then - v else v))
              && ((if negative then - v else v) <=? INT_MAX)) eqn:Hb;
      [| discriminate].
    intros H. inversion H. subst n.
    apply andb_true_iff in Hb. rewrite !Z.leb_le in Hb.
    split; [exact Hb |].
    pose proof (read_digits_seen t 0 false) as Hs.
    rewrite Hr in Hs. destruct (Hs eq_refl) as [? | ?]; [discriminate | auto]. }
  destruct Hcases as [[r Hs] | [[r Hs] | [Hm Hp]]].
  - rewrite Hs. intros H. apply (Hgen true) in H.
    destruct H as [Hn [c [rest [-> Hc]]]]. split; [exact Hn |].
    exists c, rest. auto.
  - rewrite Hs. intros H. apply (Hgen false) in H.
    destruct H as [Hn [c [rest [-> Hc]]]]. split; [exact Hn |].
    exists c, rest. auto.
  - assert (Hs : match s with
                 | String "-" rest => (true, rest)
                 | String "+" rest => (false, rest)
                 | _ => (false, s)
                 end = (false, s)).
    { destruct s as [|c r]; [reflexivity |].
      destruct (Ascii.eqb_spec c "-") as [-> | Hm'];
        [exfalso; now apply (Hm r) |].
      destruct (Ascii.eqb_spec c "+") as [-> | Hp'];
        [exfalso; now apply (Hp r) |].
      destruct c as [[|] [|] [|] [|] [|] [|] [|] [|]];
        try reflexivity; congruence. }
    rewrite Hs. intros H. apply (Hgen false) in H.
    destruct H as [Hn [c [rest [Ht Hc]]]]. split; [exact Hn |].
    exists c, rest. auto.
Qed.

Lemma stoi_returns_int_witness :
  INT_MIN <= 42 <= INT_MAX
  /\ exists (c : ascii) (rest : string),
       is_digit c = true
       /\ (skip_spaces " +42nd" = String c rest
           \/ skip_spaces " +42nd" = String "-" (String c rest)
           \/ skip_spaces " +42nd" = String "+" (String c rest)).
Proof. apply (stoi_returns_int " +42nd" 42). reflexivity. Defined.

(* ===================================================================== *)
(** ** More on the driver: file names and the program name *)
(* ===================================================================== *)

Lemma all_chars_app (f : ascii -> bool) (a b : string) :
  all_chars f (a ++ b) = all_chars f a && all_chars f b.
Proof.
  induction a as [|c a IH]; simpl; [reflexivity |].
  now rewrite IH, andb_assoc.
Qed.

Lemma allowed_char_plain (c : ascii) :
  allowed_in_filename c = true ->
  (32 <= nat_of_ascii c < 127)%nat
  /\ c <> "/"%char /\ c <> ascii_of_nat 92 /\ c <> ":"%char.
Proof.
  destruct c as [[|] [|] [|] [|] [|] [|] [|] [|]]; vm_compute;
    intros H; try discriminate H;
    (repeat split; [lia | lia | discriminate | discriminate | discriminate]).
Qed.

(** A name [isValidFilename] accepts is made of printable ASCII
    characters and holds no slash, no backslash and no colon; and a name
    built from two pieces is accepted exactly when both pieces are. *)
Theorem valid_filename_characters (a b : string) :
  isValidFilename (a ++ b) = isValidFilename a && isValidFilename b
  /\ (isValidFilename a = true ->
      forall c : ascii,
        In c (list_ascii_of_string a) ->
        (32 <= nat_of_ascii c < 127)%nat
        /\ c <> "/"%char /\ c <> ascii_of_nat 92 /\ c <> ":"%char).
Proof.
  split; [apply all_chars_app |].
  unfold isValidFilename.
  induction a as [|x a IH]; simpl; intros H c Hc; [contradiction |].
  apply andb_true_iff in H. destruct H as [Hx Ha].
  destruct Hc as [<- | Hc]; [now apply allowed_char_plain | now apply IH].
Qed.

Lemma valid_filename_characters_witness :
  (32 <= nat_of_ascii "_" < 127)%nat
  /\ "_"%char <> "/"%char /\ "_"%char <> ascii_of_nat 92
  /\ "_"%char <> ":"%char.
Proof.
  apply (proj2 (valid_filename_characters
                  "my results_2.txt" EmptyString) eq_refl "_"%char).
  simpl. tauto.
Defined.

Lemma find_last_of_dot_none (s : string) :
  no_dot s = true -> find_last_of_dot s = None.
Proof.
  unfold no_dot. induction s as [|c s IH]; simpl; [reflexivity |].
  intros H. apply andb_true_iff in H. destruct H as [Hc Hs].
  rewrite IH by assumption. apply negb_true_iff in Hc. now rewrite Hc.
Qed.

Lemma find_last_of_dot_app (base ext : string) :
  no_dot ext = true ->
  find_last_of_dot (base ++ String "." ext) = Some (String.length base).
Proof.
  intros Hext. induction base as [|c base IH]; simpl.
  - now rewrite find_last_of_dot_none.
  - now rewrite IH.
Qed.

Lemma substring_prefix (a b : string) :
  substring 0 (String.length a) (a ++ b) = a.
Proof.
  induction a as [|c a IH]; simpl.
  - destruct b; reflexivity.
  - now rewrite IH.
Qed.

(** The program name is the file name without its last extension: what
    follows the last dot is cut off together with the dot, and a name
    without a dot is kept whole. *)
Theorem program_name_drops_last_extension (base ext : string) :
  no_dot ext = true ->
  program_name_of (base ++ String "." ext) = base
  /\ program_name_of ext = ext.
Proof.
  intros Hext. unfold program_name_of. split.
  - rewrite find_last_of_dot_app by assumption. apply substring_prefix.
  - now rewrite find_last_of_dot_none.
Qed.

Lemma program_name_drops_last_extension_witness :
  program_name_of ("specific_grep.v2" ++ String "." "exe")
  = "specific_grep.v2"
  /\ program_name_of "exe" = "exe".
Proof.
  apply (program_name_drops_last_extension "specific_grep.v2" "exe").
  reflexivity.
Defined.

(* ===================================================================== *)
(** ** More on the driver: the command line *)
(* ===================================================================== *)

(** A command line with more than ten arguments, or with an odd number
    of arguments other than one, is refused with exit status 1 and the
    message about the number of arguments; the file system is not
    touched, not even to ask for the current directory. *)
Theorem main_wrong_argument_count (env : Env) (argv : list string) :
  (10 < List.length argv)%nat
  \/ (Nat.odd (List.length argv) = true /\ (3 <= List.length argv)%nat) ->
  main env argv
  = (Exit 1,
     on_caller [Cerr ("Error: wrong number of arguments" ++ endl)%string]).
Proof.
  intros H. unfold main.
  destruct argv as [|a0 rest]; [simpl in H; lia |].
  set (n := List.length (a0 :: rest)) in *.
  replace (Z.of_nat n =? 1) with false
    by (symmetry; apply Z.eqb_neq; lia).
  replace (negb (Z.rem (Z.of_nat n) 2 =? 0) || (Z.of_nat n >? 10))
    with true; [reflexivity |].
  symmetry. apply orb_true_iff.
  destruct H as [H | [Hodd _]].
  - right. apply Z.gtb_lt. lia.
  - left. apply negb_true_iff, Z.eqb_neq.
    rewrite Z.rem_mod_nonneg by lia.
    apply Nat.odd_spec in Hodd. destruct Hodd as [m Hm].
    rewrite Hm, Nat2Z.inj_add, Nat2Z.inj_mul.
    rewrite Z.add_comm, Z.mul_comm, Z.mod_add by lia.
    discriminate.
Qed.

Lemma main_wrong_argument_count_witness :
  main Example.env ["specific_grep"; "foo"; "-t"]
  = (Exit 1,
     on_caller [Cerr ("Error: wrong number of arguments" ++ endl)%string]).
Proof.
  apply (main_wrong_argument_count Example.env ["specific_grep"; "foo"; "-t"]).
  right. split; [reflexivity | simpl; lia].
Defined.

Lemma option_kind_eq_dec (k k' : option_kind) : {k = k'} + {k <> k'}.
Proof. decide equality. Qed.

(** What an accepted option tells: it is one of the four options, it was
    not given before, its argument passed its test, and its flag is now
    set while the other flags are unchanged. *)
Lemma handle_option_continue (env : Env) (opt value : string)
    (vars vars' : locals) (trace trace' : list io_event) :
  handle_option env opt value vars trace = Continue vars' trace' ->
  (dir_opt vars = false -> directory_path vars = fs_cwd env) ->
  exists k : option_kind,
    kind_of opt = Some k
    /\ given k vars = false
    /\ given k vars' = true
    /\ (forall k', k' <> k -> given k' vars' = given k' vars)
    /\ accepted env k value
    /\ (dir_opt vars' = false -> directory_path vars' = fs_cwd env).
Proof.
  unfold handle_option, kind_of, fail. intros H Hcwd.
  destruct (String.eqb opt "-d" || String.eqb opt "--dir").
  { destruct (dir_opt vars) eqn:Hflag; [discriminate |].
    rewrite (Hcwd eq_refl) in H.
    destruct (fs_exists env _) as [[|]|e|u] eqn:Hex; try discriminate.
    inversion H. subst. exists DirOption. simpl.
    repeat split; try assumption; try discriminate.
    - intros [| | |] Hk; try reflexivity. congruence.
    - unfold fs_exists in Hex.
      destruct (fs_status env _); [discriminate |].
      destruct (fs_status_error env _); discriminate. }
  destruct (String.eqb opt "-l" || String.eqb opt "--log_file").
  { destruct (log_filename_opt vars) eqn:Hflag; [discriminate |].
    destruct (negb (isValidFilename value)) eqn:Hv; [discriminate |].
    inversion H. subst. exists LogOption. simpl.
    repeat split; try assumption.
    - intros [| | |] Hk; try reflexivity. congruence.
    - now apply negb_false_iff in Hv. }
  destruct (String.eqb opt "-r" || String.eqb opt "--result_file").
  { destruct (result_filename_opt vars) eqn:Hflag; [discriminate |].
    destruct (negb (isValidFilename value)) eqn:Hv; [discriminate |].
    inversion H. subst. exists ResultOption. simpl.
    repeat split; try assumption.
    - intros [| | |] Hk; try reflexivity. congruence.
    - now apply negb_false_iff in Hv. }
  destruct (String.eqb opt "-t" || String.eqb opt "--threads").
  { destruct (thread_cnt_opt vars) eqn:Hflag; [discriminate |].
    destruct (stoi value) as [n|[| | |]|u] eqn:Hs; try discriminate.
    inversion H. subst. exists ThreadsOption. simpl.
    repeat split; try assumption.
    - intros [| | |] Hk; try reflexivity. congruence.
    - now exists n. }
  discriminate.
Qed.

Lemma option_loop_accepts (env : Env) (argv : list string) (cnt : Z)
    (fuel : nat) :
  forall (i : Z) (vars vars' : locals) (trace trace' : list io_event),
    option_loop env argv cnt fuel i vars trace = Continue vars' trace' ->
    Z.of_nat fuel = cnt + 1 - i ->
    (dir_opt vars = false -> directory_path vars = fs_cwd env) ->
    (forall j, i <= j <= cnt ->
       exists k, kind_of (arg argv (j * 2)) = Some k
                 /\ given k vars = false
                 /\ accepted env k (arg argv (j * 2 + 1)))
    /\ (forall j j', i <= j < j' /\ j' <= cnt ->
          kind_of (arg argv (j * 2)) <> kind_of (arg argv (j' * 2))).
Proof.
  induction fuel as [|fuel IH];
    intros i vars vars' trace trace' Hloop Hfuel Hcwd.
  - split; intros; lia.
  - cbn [option_loop] in Hloop.
    replace (i <=? cnt) with true in Hloop
      by (symmetry; apply Z.leb_le; lia).
    destruct (handle_option env (arg argv (i * 2)) (arg argv (i * 2 + 1))
                            vars trace) as [vars1 trace1|s t] eqn:Hstep;
      [| discriminate].
    apply handle_option_continue in Hstep; [| assumption].
    destruct Hstep as [k [Hk [Hnot [Hset [Hothers [Hacc Hcwd1]]]]]].
    apply IH in Hloop; [| lia | assumption].
    destruct Hloop as [Hall Hdistinct].
    assert (Hlater : forall j, i + 1 <= j <= cnt ->
              exists kj, kind_of (arg argv (j * 2)) = Some kj
                         /\ kj <> k /\ given kj vars = false
                         /\ accepted env kj (arg argv (j * 2 + 1))).
    { intros j Hj. destruct (Hall j Hj) as [kj [Hkj [Hgj Haj]]].
      exists kj. assert (kj <> k) by congruence.
      repeat split; try assumption. now rewrite <- Hothers. }
    split.
    + intros j Hj. destruct (Z.eq_dec j i) as [-> | Hne].
      * exists k. auto.
      * destruct (Hlater j ltac:(lia)) as [kj [Hkj [_ [Hgj Haj]]]].
        exists kj. auto.
    + intros j j' Hj. destruct (Z.eq_dec j i) as [-> | Hne].
      * destruct (Hlater j' ltac:(lia)) as [kj [Hkj [Hneq _]]].
        rewrite Hk, Hkj. congruence.
      * apply Hdistinct. lia.
Qed.

(** [main] returns 0 only for a well-formed command line: an even number
    of arguments between 2 and 10, every option one of the four the
    program knows and with an argument that passed its test (an existing
    path below the current directory, a valid file name, a number
    [std::stoi] converts), and no option given twice, in either
    spelling. *)
Theorem main_success_conditions
    (env : Env) (argv : list string) (eff : effects) :
  main env argv = (Exit 0, eff) ->
  let argc := Z.of_nat (List.length argv) in
  2 <= argc <= 10
  /\ Z.rem argc 2 = 0
  /\ (forall i, 1 <= i -> i * 2 + 1 < argc ->
        exists k, kind_of (arg argv (i * 2)) = Some k
                  /\ accepted env k (arg argv (i * 2 + 1)))
  /\ (forall i j, 1 <= i < j -> j * 2 + 1 < argc ->
        kind_of (arg argv (i * 2)) <> kind_of (arg argv (j * 2))).
Proof.
  intros Hmain argc. unfold main in Hmain.
  destruct argv as [|a0 rest]; [discriminate |].
  fold argc in Hmain.
  destruct (argc =? 1) eqn:H1; [discriminate |].
  destruct (negb (Z.rem argc 2 =? 0) || (argc >? 10)) eqn:H2;
    [discriminate |].
  apply orb_false_iff in H2. destruct H2 as [Heven Hmax].
  apply negb_false_iff, Z.eqb_eq in Heven.
  apply Z.eqb_neq in H1.
  assert (Hle : argc <= 10).
  { destruct (argc >? 10) eqn:E; [discriminate |].
    rewrite Z.gtb_ltb in E. apply Z.ltb_ge in E. exact E. }
  assert (Hpos : 1 <= argc) by (subst argc; simpl; lia).
  assert (Hmod : argc mod 2 = 0) by (rewrite <- Z.rem_mod_nonneg; lia).
  assert (Hquot : Z.quot (argc - 2) 2 = (argc - 2) / 2)
    by (apply Z.quot_div_nonneg; lia).
  assert (Hhalf : argc = 2 * (argc / 2))
    by (rewrite (Z.div_mod argc 2) at 1 by lia; lia).
  assert (Hcnt : (argc - 2) / 2 = argc / 2 - 1).
  { replace (argc - 2) with (argc + (-1) * 2) by ring.
    rewrite Z.div_add by lia. lia. }
  destruct (option_loop env (a0 :: rest) (Z.quot (argc - 2) 2)
              (Z.to_nat (Z.quot (argc - 2) 2)) 1 _ [FsCurrentPath])
    as [vars trace|s trace] eqn:Hloop.
  2: { inversion Hmain. subst s.
       exfalso. eapply option_loop_stop_status. eassumption. }
  apply option_loop_accepts in Hloop; [| lia | reflexivity].
  destruct Hloop as [Hall Hdistinct].
  rewrite Hquot, Hcnt in Hall, Hdistinct.
  repeat split; try lia.
  - intros i Hi Hlt. destruct (Hall i ltac:(lia)) as [k [Hk [_ Hacc]]].
    exists k. auto.
  - intros i j Hij Hlt. apply Hdistinct. lia.
Qed.

Lemma main_success_conditions_witness :
  kind_of (arg ["specific_grep"; "foo"; "-t"; "2"; "--log_file"; "my.log"]
               (1 * 2))
  <> kind_of (arg ["specific_grep"; "foo"; "-t"; "2"; "--log_file"; "my.log"]
                  (2 * 2)).
Proof.
  apply (main_success_conditions Example.env
           ["specific_grep"; "foo"; "-t"; "2"; "--log_file"; "my.log"] _
           ltac:(vm_compute; reflexivity)); simpl; lia.
Defined.

Lemma handle_option_spelling (env : Env) (opt opt' value : string)
    (vars : locals) (trace : list io_event) :
  kind_of opt = kind_of opt' ->
  handle_option env opt value vars trace
  = handle_option env opt' value vars trace.
Proof.
  unfold kind_of, handle_option.
  destruct (String.eqb opt "-d" || String.eqb opt "--dir"),
           (String.eqb opt "-l" || String.eqb opt "--log_file"),
           (String.eqb opt "-r" || String.eqb opt "--result_file"),
           (String.eqb opt "-t" || String.eqb opt "--threads"),
           (String.eqb opt' "-d" || String.eqb opt' "--dir"),
           (String.eqb opt' "-l" || String.eqb opt' "--log_file"),
           (String.eqb opt' "-r" || String.eqb opt' "--result_file"),
           (String.eqb opt' "-t" || String.eqb opt' "--threads");
    intros H; try discriminate H; reflexivity.
Qed.

Lemma option_loop_spelling (env : Env) (argv argv' : list string) (cnt : Z)
    (fuel : nat) :
  same_up_to_spelling argv argv' ->
  forall (i : Z) (vars : locals) (trace : list io_event),
    1 <= i ->
    option_loop env argv' cnt fuel i vars trace
    = option_loop env argv cnt fuel i vars trace.
Proof.
  intros [_ Hsame].
  induction fuel as [|fuel IH]; intros i vars trace Hi; cbn [option_loop];
    [reflexivity |].
  destruct (i <=? cnt); [| reflexivity].
  assert (Hval : arg argv' (i * 2 + 1) = arg argv (i * 2 + 1)).
  { unfold arg. destruct (Hsame (Z.to_nat (i * 2 + 1)))
      as [H | [j [_ [Hj _]]]]; [now rewrite H | lia]. }
  assert (Hopt : kind_of (arg argv (i * 2)) = kind_of (arg argv' (i * 2))).
  { unfold arg. destruct (Hsame (Z.to_nat (i * 2)))
      as [H | [j [_ [_ H]]]]; [now rewrite H | exact H]. }
  rewrite Hval.
  rewrite (handle_option_spelling env _ _ (arg argv (i * 2 + 1)) vars trace
             Hopt).
  destruct (handle_option env (arg argv' (i * 2)) (arg argv (i * 2 + 1))
                          vars trace); [apply IH; lia | reflexivity].
Qed.

(** The long spelling of an option does what the short one does: two
    command lines that differ only in the spelling of their options
    ([-d]/[--dir], [-l]/[--log_file], [-r]/[--result_file],
    [-t]/[--threads]) make the same run, with the same outcome and the
    same operations. *)
Theorem option_spellings_equivalent
    (env : Env) (argv argv' : list string) :
  same_up_to_spelling argv argv' ->
  main env argv' = main env argv.
Proof.
  intros Hsame. pose proof Hsame as [Hlen Hnth]. unfold main.
  destruct argv as [|a0 rest]; destruct argv' as [|a0' rest'];
    try discriminate; [reflexivity |].
  assert (H0 : a0 = a0').
  { destruct (Hnth 0%nat) as [H | [j [Hj [Hk _]]]]; [exact H | lia]. }
  subst a0'. rewrite <- Hlen.
  destruct (Z.of_nat (List.length (a0 :: rest)) =? 1); [reflexivity |].
  destruct (negb (Z.rem (Z.of_nat (List.length (a0 :: rest))) 2 =? 0)
            || (Z.of_nat (List.length (a0 :: rest)) >? 10));
    [reflexivity |].
  assert (H1 : arg (a0 :: rest') 1 = arg (a0 :: rest) 1).
  { unfold arg. destruct (Hnth (Z.to_nat 1)) as [H | [j [Hj1 [Hj _]]]];
      [now rewrite H | lia]. }
  rewrite H1.
  rewrite (option_loop_spelling env (a0 :: rest) (a0 :: rest') _ _ Hsame)
    by lia.
  reflexivity.
Qed.

Lemma option_spellings_equivalent_witness :
  main Example.env ["specific_grep"; "foo"; "--threads"; "2"; "-r"; "out.txt"]
  = main Example.env
         ["specific_grep"; "foo"; "-t"; "2"; "--result_file"; "out.txt"].
Proof.
  apply (option_spellings_equivalent Example.env
           ["specific_grep"; "foo"; "-t"; "2"; "--result_file"; "out.txt"]
           ["specific_grep"; "foo"; "--threads"; "2"; "-r"; "out.txt"]).
  split; [reflexivity |].
  intros k.
  destruct k as [|[|[|[|[|k]]]]]; try (left; reflexivity).
  - right. exists 1%nat. repeat split; lia || reflexivity.
  - right. exists 2%nat. repeat split; lia || reflexivity.
Defined.

(** The worker count of a run: 4 when the command line has no option,
    and with [-t] as only option the number its argument denotes, the
    scan taking place in the current directory; an argument that denotes
    a number outside [int] ends the program with the
    [std::out_of_range] that [std::stoi] throws and nobody catches,
    before any scan. *)
Theorem thread_option_sets_worker_count
    (env : Env) (prog S ws : string) (n : Z) (rest : string) :
  all_chars isspace ws = true ->
  stops_number rest = true ->
  main env [prog; S] = scan_and_exit env S (fs_cwd env) 4 [FsCurrentPath]
  /\ main env [prog; S; "-t"; ws ++ decimal n ++ rest]%string
     = if (INT_MIN <=? n) && (n <=? INT_MAX)
       then scan_and_exit env S (fs_cwd env) n [FsCurrentPath]
       else (Terminate out_of_range, on_caller [FsCurrentPath]).
Proof.
  intros Hws Hrest. split.
  - cbv -[usage program_name_of append searchDirectoryForString
          fs_cwd path_filename].
    destruct (searchDirectoryForString env S (fs_cwd env) 4)
      as [[r|e|u] eff]; reflexivity.
  - pose proof (stoi_reads_decimal ws n rest Hws Hrest) as Hstoi.
    unfold converted in Hstoi.
    remember ((INT_MIN <=? n) && (n <=? INT_MAX)) as fits eqn:Hfits.
    cbv -[usage program_name_of append searchDirectoryForString stoi
          fs_cwd path_filename decimal].
    rewrite Hstoi.
    destruct fits; [| reflexivity].
    destruct (searchDirectoryForString env S (fs_cwd env) n)
      as [[r|e|u] eff]; reflexivity.
Qed.

Lemma thread_option_sets_worker_count_witness :
  main Example.env ["specific_grep"; "foo"; "-t"; " 2x"]
  = scan_and_exit Example.env "foo" "root" 2 [FsCurrentPath]
  /\ main Example.env ["specific_grep"; "foo"; "-t"; "99999999999"]
     = (Terminate out_of_range, on_caller [FsCurrentPath]).
Proof.
  split.
  - apply (proj2 (thread_option_sets_worker_count Example.env
                    "specific_grep" "foo" " " 2 "x" eq_refl eq_refl)).
  - apply (proj2 (thread_option_sets_worker_count Example.env
                    "specific_grep" "foo" EmptyString 99999999999
                    EmptyString eq_refl eq_refl)).
Defined.

(** The argument of [-d] is taken below the current directory, joined to
    it with a backslash: when something exists at that path the scan
    runs there with the default of 4 workers, after one existence
    test. *)
Theorem directory_option_scans_below_cwd
    (env : Env) (prog S d : string) :
  let root := (fs_cwd env ++ backslash ++ d)%string in
  fs_status env root <> None ->
  main env [prog; S; "-d"; d]
  = scan_and_exit env S root 4 [FsCurrentPath; FsExists root].
Proof.
  intros root Hroot.
  cbv -[usage program_name_of append backslash searchDirectoryForString
        fs_status fs_cwd path_filename].
  fold root. destruct (fs_status env root); [| congruence].
  destruct (searchDirectoryForString env S root 4) as [[r|e|u] eff];
    reflexivity.
Qed.

Lemma directory_option_scans_below_cwd_witness :
  main (Build_Env (fun p => if String.eqb p ("top" ++ backslash ++ "sub")
                            then Some Directory else None)
                  (fun _ => Some []) (fun _ => None) "top" (fun p => p)
                  (fun _ => 0%nat) (fun _ => false) (fun _ => true))
       ["specific_grep"; "foo"; "-d"; "sub"]
  = (Exit 0,
     {| caller_thread :=
          [FsCurrentPath; FsExists ("top" ++ backslash ++ "sub");
           DirectoryWalk ("top" ++ backslash ++ "sub")];
        worker_threads := [[]; []; []; []] |}).
Proof.
  rewrite (directory_option_scans_below_cwd
             (Build_Env (fun p => if String.eqb p ("top" ++ backslash ++ "sub")
                                  then Some Directory else None)
                        (fun _ => Some []) (fun _ => None) "top" (fun p => p)
                        (fun _ => 0%nat) (fun _ => false) (fun _ => true))
             "specific_grep" "foo" "sub"
             ltac:(vm_compute; discriminate)).
  vm_compute. reflexivity.
Defined.

Lemma main_bad_directory_witness :
  main Example.bad_roots ["specific_grep"; "foo"; "-d"; "missing"]
  = (Exit 1,
     on_caller [FsCurrentPath; FsExists ("top" ++ backslash ++ "missing");
                Cerr ("Error: directory does not exist" ++ endl)%string])
  /\ main Example.bad_roots ["specific_grep"; "foo"; "-d"; "unsearchable"]
     = (Terminate filesystem_error,
        on_caller [FsCurrentPath;
                   FsExists ("top" ++ backslash ++ "unsearchable")])
  /\ main Example.bad_roots ["specific_grep"; "foo"; "-d"; "file"]
     = (Terminate filesystem_error,
        on_caller [FsCurrentPath; FsExists ("top" ++ backslash ++ "file");
                   DirectoryWalk ("top" ++ backslash ++ "file")]).
Proof.
  split; [| split].
  - apply (proj1 (main_bad_directory Example.bad_roots "specific_grep" "foo"
                    "missing")); reflexivity.
  - apply (proj1 (proj2 (main_bad_directory Example.bad_roots "specific_grep"
                           "foo" "unsearchable"))); reflexivity.
  - apply (proj2 (proj2 (main_bad_directory Example.bad_roots "specific_grep"
                           "foo" "file")) RegularFile);
      [reflexivity | discriminate].
Defined.

(* ===================================================================== *)
(** ** The reading loop on a file written line by line *)
(* ===================================================================== *)

(** What one call of [std::getline] does with the unread characters: it
    fails exactly at the end of the input; on success the line holds no
    terminator and is either followed in the input by a terminator and
    the characters left unread, or is all that was left, and not empty.
    Fewer characters are left unread than before. *)
Theorem getline_splits_input (input : string) :
  match getline input with
  | None => input = EmptyString
  | Some (line, rest) =>
      no_newline line = true
      /\ (input = (line ++ String newline rest)%string
          \/ (input = line /\ rest = EmptyString /\ line <> EmptyString))
      /\ (String.length rest < String.length input)%nat
  end.
Proof.
  induction input as [|c input IH]; simpl; [reflexivity |].
  destruct (Ascii.eqb_spec c newline) as [-> | Hc].
  - repeat split; [now left | lia].
  - assert (Hcb : Ascii.eqb c newline = false)
      by (now apply Ascii.eqb_neq).
    destruct (getline input) as [[line rest]|].
    + destruct IH as [Hline [Hsplit Hlen]]. simpl. rewrite Hcb, Hline.
      repeat split; [| lia].
      destruct Hsplit as [-> | [-> [-> Hne]]];
        [now left | right; repeat split; discriminate].
    + subst input. simpl. rewrite Hcb.
      repeat split; [right; repeat split; discriminate | lia].
Qed.



(* ===================================================================== *)
(** ** Beyond the range of the line counter *)
(* ===================================================================== *)

Lemma wrap_int_range (z : Z) : INT_MIN <= wrap_int z <= INT_MAX.
Proof.
  unfold wrap_int, INT_MIN, INT_MAX.
  pose proof (Z.mod_pos_bound (z + 2 ^ 31) (2 ^ 32) ltac:(lia)). lia.
Qed.

(** Whatever the files hold, the line number of a record is a value of
    the [int] counter. *)
Lemma record_line_number_int (env : Env) (tid : thread_id) (S : string)
    (files : list string) (r : result_tuple) :
  In r (fst (searchFilesForString env tid S files)) ->
  INT_MIN <= tuple_line_number r <= INT_MAX.
Proof.
  intros Hin. apply in_searchFilesForString in Hin.
  destruct Hin as [[-> _] | Hin].
  - simpl. unfold INT_MIN, INT_MAX. lia.
  - apply in_flat_map in Hin. destruct Hin as [q [_ Hr]].
    unfold file_records in Hr.
    destruct (fs_open env q); [| contradiction].
    apply in_file_matches in Hr. destruct Hr as [j [l [_ [_ ->]]]].
    simpl. apply wrap_int_range.
Qed.

Section LongFileFacts.
Variable n : nat.
Hypothesis n_is : Z.of_nat n = 2147483648.

Lemma long_file_lines :
  file_lines (LongFile.content_of n) = repeat "a" n.
Proof.
  unfold LongFile.content_of.
  rewrite <- (string_app_nil_r (terminated (repeat "a" n))).
  rewrite file_lines_terminated.
  - apply app_nil_r.
  - apply Forall_forall. intros l Hl. apply repeat_spec in Hl. now subst l.
  - reflexivity.
Qed.

Lemma long_file_last_line :
  nth_error (file_lines (LongFile.content_of n)) (Nat.pred n) = Some "a"
  /\ Z.of_nat (Nat.pred n) + 1 = 2147483648.
Proof.
  split.
  - rewrite long_file_lines. apply nth_error_repeat. lia.
  - lia.
Qed.

Lemma long_file_opens :
  fs_open (LongFile.env_of n) "big/lines.txt" = Some (LongFile.content_of n).
Proof. reflexivity. Qed.

Lemma long_file_number_missing :
  ~ (forall r : result_tuple,
        (In r (fst (searchFilesForString (LongFile.env_of n) 7%nat "a"
                      ["big/lines.txt"]))
         /\ tuple_path r = "big/lines.txt" /\ 1 <= tuple_line_number r)
        <->
        (exists (k : nat) (text : string),
            nth_error (file_lines (LongFile.content_of n)) k = Some text
            /\ substring_of "a" text
            /\ r = (7%nat, "big/lines.txt", Z.of_nat k + 1, text))).
Proof.
  intros H. destruct long_file_last_line as [Hnth Hnum].
  destruct (H (7%nat, "big/lines.txt", Z.of_nat (Nat.pred n) + 1, "a"))
    as [_ Hback].
  destruct Hback as [Hin _].
  - exists (Nat.pred n), "a".
    split; [exact Hnth |]. split; [| reflexivity].
    exists EmptyString, EmptyString. reflexivity.
  - apply record_line_number_int in Hin.
    cbn [tuple_line_number] in Hin. rewrite Hnum in Hin.
    unfold INT_MAX in Hin. lia.
Qed.


End LongFileFacts.

Lemma long_file_line_count : Z.of_nat LongFile.line_count = 2147483648.
Proof. unfold LongFile.line_count. apply Z2Nat.id. lia. Qed.

(** C1 (as stated) fails on a file of [2^31] lines ["a"]: its last line
    contains the search string ["a"] and is line [2^31] of the file, but
    no record carries that line number, since the [int] counter holds
    [-2^31] when the line is read. *)
Lemma C1_counterexample :
  In "big/lines.txt" ["big/lines.txt"]
  /\ fs_open LongFile.env "big/lines.txt" = Some LongFile.content
  /\ ~ (forall r : result_tuple,
          (In r (fst (searchFilesForString LongFile.env 7%nat "a"
                        ["big/lines.txt"]))
           /\ tuple_path r = "big/lines.txt" /\ 1 <= tuple_line_number r)
          <->
          (exists (k : nat) (text : string),
              nth_error (file_lines LongFile.content) k = Some text
              /\ substring_of "a" text
              /\ r = (7%nat, "big/lines.txt", Z.of_nat k + 1, text))).
Proof.
  split; [left; reflexivity |].
  split; [exact (long_file_opens LongFile.line_count) |].
  exact (long_file_number_missing LongFile.line_count long_file_line_count).
Qed.

